(** * Short-Video-Analysis-App: the orchestration core, embedded and verified

    A shallow embedding of
      - [notebooks/tools.py]        ([clean_think_blocks], [extract_assistant_response]),
      - [agents/memory.py]          (class [MemoryManager]),
      - [agents/langgraph_agents.py] (the nodes, [orchestrator_route], [build_graph]),
      - [agents/transcript_agent.py] ([VoiceToText.transcribe]),
      - [app.py]                    ([start_new_session], [get_current_messages]),
    together with the parts of the Python runtime those functions lean on
    ([str.strip], [re.sub] / [re.search] for the three patterns used,
    [json.loads], list slicing).

    Python [str] values are sequences of Unicode code points; they are
    modelled as [list N].  The inference engines, the renderer and the random
    source are collaborators: they are arguments of the embedding and every
    theorem quantifies over them. *)

From Stdlib Require Import ZArith NArith String Ascii List Lia.
From stdpp Require Import base option list gmap pretty.

Set Default Proof Using "Type".
Set Warnings "-register-all".
Local Open Scope N_scope.

(* ===================================================================== *)
(** * Part I: definitions                                                 *)
(* ===================================================================== *)

(** ** Python strings *)

Abbreviation pystr := (list N).

Module PyStr.

(** Decoding of a UTF-8 byte sequence; it only serves to write the string
    literals of the sources (emoji included) legibly. *)
Fixpoint utf8_decode (bs : list N) : pystr :=
  match bs with
  | [] => []
  | b0 :: r0 =>
    if b0 <? 0x80 then b0 :: utf8_decode r0
    else if b0 <? 0xE0 then
      match r0 with
      | b1 :: r1 => ((b0 - 0xC0) * 64 + (b1 - 0x80)) :: utf8_decode r1
      | [] => [0xFFFD]
      end
    else if b0 <? 0xF0 then
      match r0 with
      | b1 :: b2 :: r2 =>
          ((b0 - 0xE0) * 4096 + (b1 - 0x80) * 64 + (b2 - 0x80)) :: utf8_decode r2
      | _ => [0xFFFD]
      end
    else
      match r0 with
      | b1 :: b2 :: b3 :: r3 =>
          ((b0 - 0xF0) * 262144 + (b1 - 0x80) * 4096 + (b2 - 0x80) * 64 + (b3 - 0x80))
            :: utf8_decode r3
      | _ => [0xFFFD]
      end
  end.

Definition py (s : string) : pystr :=
  utf8_decode (map N_of_ascii (list_ascii_of_string s)).
Arguments py s%_string.

(** [str.isspace] on one code point; [\s] of [re] on a [str] pattern tests
    the same set. *)
Definition is_space (c : N) : bool :=
  ((9 <=? c) && (c <=? 13)) || ((28 <=? c) && (c <=? 32))
  || (c =? 0x85) || (c =? 0xA0) || (c =? 0x1680)
  || ((0x2000 <=? c) && (c <=? 0x200A))
  || (c =? 0x2028) || (c =? 0x2029) || (c =? 0x202F) || (c =? 0x205F)
  || (c =? 0x3000).

Fixpoint lstrip (s : pystr) : pystr :=
  match s with
  | c :: s' => if is_space c then lstrip s' else s
  | [] => []
  end.

Fixpoint rstrip (s : pystr) : pystr :=
  match s with
  | c :: s' =>
      match rstrip s' with
      | [] => if is_space c then [] else [c]
      | r => c :: r
      end
  | [] => []
  end.

(** [s.strip()] *)
Definition strip (s : pystr) : pystr := rstrip (lstrip s).

(** [s.startswith(w)] *)
Fixpoint startswith (w s : pystr) : bool :=
  match w, s with
  | [], _ => true
  | a :: w', b :: s' => (a =? b) && startswith w' s'
  | _ :: _, [] => false
  end.

(** [s.partition(sep)]: the text before and after the first occurrence of
    [sep], [None] when there is none. *)
Fixpoint partition (sep s : pystr) : option (pystr * pystr) :=
  if startswith sep s then Some ([], drop (length sep) s)
  else match s with
       | [] => None
       | c :: s' =>
           match partition sep s' with
           | Some (a, b) => Some (c :: a, b)
           | None => None
           end
       end.

(** [sep.join(parts)] *)
Fixpoint join (sep : pystr) (parts : list pystr) : pystr :=
  match parts with
  | [] => []
  | [p] => p
  | p :: rest => p ++ sep ++ join sep rest
  end.

(** The double quote; string literals of this file never contain one. *)
Definition dquote : N := 34.
Definition quoted (s : pystr) : pystr := dquote :: s ++ [dquote].

End PyStr.
Import PyStr.

(** ** The fragment of [re] the program uses

    The three patterns of [tools.py] are sequences of literals, [^], the
    starred classes [.*?], [.*], [\s*] and one capture group.  [match_here]
    is the backtracking matcher for such sequences: alternatives are tried in
    the engine's priority order (a greedy star tries the longest run first, a
    lazy star the shortest) and the first success is the match. *)

Module Re.

Inductive cclass :=
| CChar (c : N)   (* a literal character *)
| CDot            (* [.] under [re.DOTALL]: any character *)
| CSpace.         (* [\s] *)

Inductive item :=
| RBol                                   (* [^], no [re.MULTILINE] *)
| RClass (c : cclass)
| RStar (greedy : bool) (c : cclass)     (* [c*] and [c*?] *)
| RGroupOpen                             (* [(] of group 1 *)
| RGroupClose.                           (* [)] of group 1 *)

Definition class_ok (k : cclass) (c : N) : bool :=
  match k with
  | CChar a => a =? c
  | CDot => true
  | CSpace => is_space c
  end.

Definition lit (w : pystr) : list item := map (fun c => RClass (CChar c)) w.

(** A match: the text left after it and the text of group 1. *)
Record re_match := { m_rest : pystr; m_group : option pystr }.

(** [match_here p bol gs s]: match [p] at the head of [s]; [bol] says whether
    [s] is the whole subject (position 0), [gs] is the text at which group 1
    was opened. *)
Fixpoint match_here (p : list item) : bool -> option pystr -> pystr -> option re_match :=
  match p with
  | [] => fun _ _ s => Some {| m_rest := s; m_group := None |}
  | RBol :: p' => fun bol gs s => if bol then match_here p' bol gs s else None
  | RClass k :: p' => fun _ gs s =>
      match s with
      | c :: s' => if class_ok k c then match_here p' false gs s' else None
      | [] => None
      end
  | RStar true k :: p' => fun bol gs =>
      (fix greedy (b : bool) (s : pystr) {struct s} : option re_match :=
         match s with
         | c :: s' =>
             if class_ok k c then
               match greedy false s' with
               | Some m => Some m
               | None => match_here p' b gs s
               end
             else match_here p' b gs s
         | [] => match_here p' b gs s
         end) bol
  | RStar false k :: p' => fun bol gs =>
      (fix lazy (b : bool) (s : pystr) {struct s} : option re_match :=
         match match_here p' b gs s with
         | Some m => Some m
         | None =>
             match s with
             | c :: s' => if class_ok k c then lazy false s' else None
             | [] => None
             end
         end) bol
  | RGroupOpen :: p' => fun bol _ s => match_here p' bol (Some s) s
  | RGroupClose :: p' => fun bol gs s =>
      match match_here p' bol gs s with
      | Some m =>
          Some {| m_rest := m_rest m;
                  m_group := (fun g => take (length g - length s) g) <$> gs |}
      | None => None
      end
  end.

(** [re.search(p, s)]: the match at the leftmost position that has one. *)
Fixpoint search_from (p : list item) (bol : bool) (s : pystr) : option re_match :=
  match match_here p bol None s with
  | Some m => Some m
  | None =>
      match s with
      | [] => None
      | _ :: s' => search_from p false s'
      end
  end.

Definition re_search (p : list item) (s : pystr) : option re_match :=
  search_from p true s.

(** [re.sub(p, empty, s)], substitution by the empty text: the
    non-overlapping matches, found left to right, are cut out.  [skip] counts the characters of the current match still to
    drop.  An empty match cuts nothing; CPython's retry for a longer match at
    the place of an empty one only concerns patterns that can match the empty
    text, which neither pattern given to [re.sub] here can
    (see [think_match_consumes] and [marker_match_consumes]). *)
Fixpoint sub_from (p : list item) (bol : bool) (skip : nat) (s : pystr) : pystr :=
  match s with
  | [] => []
  | c :: s' =>
      match skip with
      | S k => sub_from p false k s'
      | O =>
          match match_here p bol None s with
          | Some m =>
              match (length s - length (m_rest m))%nat with
              | S k => sub_from p false k s'
              | O => c :: sub_from p false 0 s'
              end
          | None => c :: sub_from p false 0 s'
          end
      end
  end.

Definition re_sub_empty (p : list item) (s : pystr) : pystr := sub_from p true 0 s.

End Re.
Import Re.

(** ** [notebooks/tools.py] *)

Definition think_open : pystr := Eval vm_compute in py "<think>".
Definition think_close : pystr := Eval vm_compute in py "</think>".

(** The pattern <think>.*?</think>, compiled with [re.DOTALL]. *)
Definition think_pattern : list item :=
  lit think_open ++ [RStar false CDot] ++ lit think_close.

Definition clean_think_blocks (text : pystr) : pystr :=
  let cleaned_text := re_sub_empty think_pattern text in
  strip cleaned_text.

Definition brain : N := Eval vm_compute in hd 0 (py "🧠").
Definition response_word : pystr := Eval vm_compute in py "Response:".
Definition assistant_delim : pystr := Eval vm_compute in py "Assistant:".

(** The pattern ^🧠\s*Response:\s* (no flags). *)
Definition marker_pattern : list item :=
  [RBol; RClass (CChar brain); RStar true CSpace] ++ lit response_word
    ++ [RStar true CSpace].

(** The pattern Assistant:\s*( .* ) with one capture group, compiled with
    [re.DOTALL]. *)
Definition assistant_pattern : list item :=
  lit assistant_delim ++ [RStar true CSpace; RGroupOpen; RStar true CDot; RGroupClose].

Definition extract_assistant_response (text : pystr) : pystr :=
  let cleaned_text := re_sub_empty marker_pattern (strip text) in
  match re_search assistant_pattern cleaned_text with
  | Some m => strip (default [] (m_group m))
  | None => strip cleaned_text
  end.

(** ** Exceptions

    A call either returns or raises.  [exn] stands for the instances of
    Python's [Exception] the program meets; what is not an [Exception]
    (an interrupt, an exit) is outside the model. *)

Inductive exn :=
| KeyError
| TypeError
| ValueError
| IndexError
| JSONDecodeError
| GraphRecursionError
| RuntimeError (msg : pystr).

Inductive result (A : Type) :=
| Ok (a : A)
| Raise (e : exn).
Arguments Ok {A} a.
Arguments Raise {A} e.

#[export] Instance result_ret : MRet result := @Ok.
#[export] Instance result_bind : MBind result := fun A B f r =>
  match r with
  | Ok a => f a
  | Raise e => Raise e
  end.
#[export] Instance result_fmap : FMap result := fun A B f r =>
  match r with
  | Ok a => Ok (f a)
  | Raise e => Raise e
  end.

(** [try: body  except Exception: handler] *)
Definition try_except {A} (body : result A) (handler : A) : A :=
  match body with
  | Ok a => a
  | Raise _ => handler
  end.

(** [d[key]] on a state dict whose entry may be missing *)
Definition getitem {A} (entry : option A) : result A :=
  match entry with
  | Some a => Ok a
  | None => Raise KeyError
  end.

(** ** [json.loads]

    The decoder of the standard library, as [json/decoder.py] and
    [json/scanner.py] define it: RFC 8259 plus [NaN], [Infinity] and
    [-Infinity], whitespace being space, tab, newline and carriage return,
    strings in strict mode.  The interpreter's resource limits (recursion
    depth, the length of integer literals) are not modelled. *)

Module Json.

Inductive json :=
| JNull
| JBool (b : bool)
| JInt (z : Z)
| JFloat (neg : bool) (digits : N) (exp10 : Z)   (* the decimal digits * 10 ^ exp10 *)
| JNaN
| JInfinity (neg : bool)
| JString (s : pystr)
| JArray (l : list json)
| JObject (d : list (pystr * json)).            (* a dict, in insertion order *)

(** [d[k] = v] and [d.get(k)] on a dict kept in insertion order *)
Fixpoint dict_set (k : pystr) (v : json) (d : list (pystr * json)) : list (pystr * json) :=
  match d with
  | [] => [(k, v)]
  | (k', v') :: d' =>
      if decide (k = k') then (k, v) :: d' else (k', v') :: dict_set k v d'
  end.

Fixpoint dict_get (k : pystr) (d : list (pystr * json)) : option json :=
  match d with
  | [] => None
  | (k', v') :: d' => if decide (k = k') then Some v' else dict_get k d'
  end.

Definition is_ws (c : N) : bool := (c =? 32) || (c =? 9) || (c =? 10) || (c =? 13).

Fixpoint skip_ws (s : pystr) : pystr :=
  match s with
  | c :: s' => if is_ws c then skip_ws s' else s
  | [] => []
  end.

Definition is_digit (c : N) : bool := (48 <=? c) && (c <=? 57).

Fixpoint span_digits (s : pystr) : pystr * pystr :=
  match s with
  | c :: s' =>
      if is_digit c then let '(d, r) := span_digits s' in (c :: d, r) else ([], s)
  | [] => ([], [])
  end.

Definition digits_value (ds : pystr) : N :=
  fold_left (fun acc c => acc * 10 + (c - 48)) ds 0.

Definition hex_value (c : N) : option N :=
  if is_digit c then Some (c - 48)
  else if (65 <=? c) && (c <=? 70) then Some (c - 55)
  else if (97 <=? c) && (c <=? 102) then Some (c - 87)
  else None.

Definition hex4 (a b c d : N) : option N :=
  match hex_value a, hex_value b, hex_value c, hex_value d with
  | Some x, Some y, Some z, Some w => Some (((x * 16 + y) * 16 + z) * 16 + w)
  | _, _, _, _ => None
  end.

Definition simple_escape (c : N) : option N :=
  if c =? 34 then Some 34            (* quote *)
  else if c =? 92 then Some 92       (* backslash *)
  else if c =? 47 then Some 47       (* slash *)
  else if c =? 98 then Some 8        (* b *)
  else if c =? 102 then Some 12      (* f *)
  else if c =? 110 then Some 10      (* n *)
  else if c =? 114 then Some 13      (* r *)
  else if c =? 116 then Some 9       (* t *)
  else None.

Definition is_high_surrogate (u : N) : bool := (0xD800 <=? u) && (u <=? 0xDBFF).
Definition is_low_surrogate (u : N) : bool := (0xDC00 <=? u) && (u <=? 0xDFFF).
Definition join_surrogates (hi lo : N) : N :=
  0x10000 + (((hi - 0xD800) * 1024) + (lo - 0xDC00)).

(** [py_scanstring], entered after the opening quote: the decoded text and
    what follows the closing quote. *)
Fixpoint scanstring (s : pystr) : option (pystr * pystr) :=
  match s with
  | [] => None
  | c :: s' =>
      if c =? 34 then Some ([], s')
      else if c =? 92 then
        match s' with
        | [] => None
        | e :: s'' =>
            if e =? 117 then   (* u and four hexadecimal digits *)
              match s'' with
              | h1 :: h2 :: h3 :: h4 :: r =>
                  match hex4 h1 h2 h3 h4 with
                  | None => None
                  | Some u =>
                      let single :=
                        match scanstring r with
                        | Some (t, rest) => Some (u :: t, rest)
                        | None => None
                        end in
                      if is_high_surrogate u then
                        match r with
                        | b :: v :: g1 :: g2 :: g3 :: g4 :: r2 =>
                            if (b =? 92) && (v =? 117) then
                              match hex4 g1 g2 g3 g4 with
                              | None => None
                              | Some u2 =>
                                  if is_low_surrogate u2 then
                                    match scanstring r2 with
                                    | Some (t, rest) => Some (join_surrogates u u2 :: t, rest)
                                    | None => None
                                    end
                                  else single
                              end
                            else single
                        | _ => single
                        end
                      else single
                  end
              | _ => None
              end
            else
              match simple_escape e with
              | None => None
              | Some x =>
                  match scanstring s'' with
                  | Some (t, rest) => Some (x :: t, rest)
                  | None => None
                  end
              end
        end
      else if c <? 32 then None   (* control character, strict mode *)
      else
        match scanstring s' with
        | Some (t, rest) => Some (c :: t, rest)
        | None => None
        end
  end.

(** [NUMBER_RE]: an optional minus, 0 or a digit run without leading zero,
    an optional fraction, an optional exponent; then [int] or [float]. *)
Definition parse_number (s : pystr) : option (json * pystr) :=
  let '(neg, s1) :=
    match s with
    | c :: r => if c =? 45 then (true, r) else (false, s)
    | [] => (false, s)
    end in
  match s1 with
  | c :: r =>
      if is_digit c then
        let '(int_digits, s2) := if c =? 48 then ([c], r) else span_digits s1 in
        let '(frac, s3) :=
          match s2 with
          | d :: r2 =>
              if d =? 46 then
                match span_digits r2 with
                | ([], _) => ([], s2)
                | (fd, r3) => (fd, r3)
                end
              else ([], s2)
          | [] => ([], s2)
          end in
        let '(expo, s4) :=
          match s3 with
          | e :: r3 =>
              if (e =? 101) || (e =? 69) then
                let '(eneg, r4) :=
                  match r3 with
                  | sg :: r4 =>
                      if sg =? 45 then (true, r4)
                      else if sg =? 43 then (false, r4) else (false, r3)
                  | [] => (false, r3)
                  end in
                match span_digits r4 with
                | ([], _) => (None, s3)
                | (ed, r5) =>
                    let v := Z.of_N (digits_value ed) in
                    (Some (if eneg then (- v)%Z else v), r5)
                end
              else (None, s3)
          | [] => (None, s3)
          end in
        match frac, expo with
        | [], None =>
            let v := Z.of_N (digits_value int_digits) in
            Some (JInt (if neg then (- v)%Z else v), s4)
        | _, _ =>
            Some (JFloat neg (digits_value (int_digits ++ frac))
                    (default 0%Z expo - Z.of_nat (length frac))%Z, s4)
        end
      else None
  | [] => None
  end.

(** The outcome of the recursive descent: a value and the text after it, a
    syntax error, or the recursion budget used up. *)
Inductive pres (A : Type) :=
| POk (a : A)
| PErr
| PFuel.
Arguments POk {A} a.
Arguments PErr {A}.
Arguments PFuel {A}.

(** [scan_once], [JSONObject] and [JSONArray].  [parse_value] starts at the
    first character of a value; [parse_members] after the opening quote of a
    key; [parse_elements] at the first character of an element. *)
Fixpoint parse_value (fuel : nat) (s : pystr) {struct fuel} : pres (json * pystr) :=
  match fuel with
  | O => PFuel
  | S f =>
      match s with
      | [] => PErr
      | c :: r =>
          if c =? 34 then
            match scanstring r with
            | Some (str, r') => POk (JString str, r')
            | None => PErr
            end
          else if c =? 123 then
            match skip_ws r with
            | q :: r' =>
                if q =? 125 then POk (JObject [], r')
                else if q =? 34 then parse_members f r' []
                else PErr
            | [] => PErr
            end
          else if c =? 91 then
            match skip_ws r with
            | q :: r' =>
                if q =? 93 then POk (JArray [], r') else parse_elements f (q :: r') []
            | [] => PErr
            end
          else if startswith (py "null") s then POk (JNull, drop 4 s)
          else if startswith (py "true") s then POk (JBool true, drop 4 s)
          else if startswith (py "false") s then POk (JBool false, drop 5 s)
          else
            match parse_number s with
            | Some (v, r') => POk (v, r')
            | None =>
                if startswith (py "NaN") s then POk (JNaN, drop 3 s)
                else if startswith (py "Infinity") s then POk (JInfinity false, drop 8 s)
                else if startswith (py "-Infinity") s then POk (JInfinity true, drop 9 s)
                else PErr
            end
      end
  end
with parse_members (fuel : nat) (s : pystr) (acc : list (pystr * json))
    {struct fuel} : pres (json * pystr) :=
  match fuel with
  | O => PFuel
  | S f =>
      match scanstring s with
      | None => PErr
      | Some (k, r) =>
          match skip_ws r with
          | c :: r1 =>
              if c =? 58 then
                match parse_value f (skip_ws r1) with
                | POk (v, r2) =>
                    match skip_ws r2 with
                    | d :: r3 =>
                        if d =? 125 then POk (JObject (dict_set k v acc), r3)
                        else if d =? 44 then
                          match skip_ws r3 with
                          | q :: r4 =>
                              if q =? 34 then parse_members f r4 (dict_set k v acc)
                              else PErr
                          | [] => PErr
                          end
                        else PErr
                    | [] => PErr
                    end
                | PErr => PErr
                | PFuel => PFuel
                end
              else PErr
          | [] => PErr
          end
      end
  end
with parse_elements (fuel : nat) (s : pystr) (acc : list json)
    {struct fuel} : pres (json * pystr) :=
  match fuel with
  | O => PFuel
  | S f =>
      match parse_value f s with
      | POk (v, r) =>
          match skip_ws r with
          | d :: r1 =>
              if d =? 93 then POk (JArray (acc ++ [v]), r1)
              else if d =? 44 then parse_elements f (skip_ws r1) (acc ++ [v])
              else PErr
          | [] => PErr
          end
      | PErr => PErr
      | PFuel => PFuel
      end
  end.

(** [json.loads(s)]: one value between optional whitespace, nothing after
    it.  The budget is more than any text can use
    (see [json_loads_budget]). *)
Definition json_loads (s : pystr) : result json :=
  match parse_value (S (2 * length s)) (skip_ws s) with
  | POk (v, rest) =>
      match skip_ws rest with
      | [] => Ok v
      | _ :: _ => Raise JSONDecodeError
      end
  | PErr => Raise JSONDecodeError
  | PFuel => Raise JSONDecodeError
  end.

(** A decimal literal that [float] rounds to zero: no digit but 0, or a
    value of at most 2^-1075 (half the least subnormal; the tie goes to the
    even neighbour, zero). *)
Definition float_is_zero (digits : N) (exp10 : Z) : bool :=
  (digits =? 0)
  || ((exp10 <? 0)%Z && (digits * 2 ^ 1075 <=? 10 ^ Z.to_N (- exp10))).

(** [bool(v)] *)
Definition truthy (v : json) : bool :=
  match v with
  | JNull => false
  | JBool b => b
  | JInt z => negb (z =? 0)%Z
  | JFloat _ d e => negb (float_is_zero d e)
  | JNaN => true
  | JInfinity _ => true
  | JString s => match s with [] => false | _ => true end
  | JArray l => match l with [] => false | _ => true end
  | JObject d => match d with [] => false | _ => true end
  end.

(** [v[key]] with a [str] key: only a dict has such items. *)
Definition subscript (v : json) (key : pystr) : result json :=
  match v with
  | JObject d =>
      match dict_get key d with
      | Some x => Ok x
      | None => Raise KeyError
      end
  | _ => Raise TypeError
  end.

(** [v == s] for a [str] constant [s] *)
Definition eq_str (v : json) (s : pystr) : bool :=
  match v with
  | JString t => bool_decide (t = s)
  | _ => false
  end.

End Json.
Import Json.

(** ** [agents/memory.py] *)

(** One message of a session: the dict with keys role and content. *)
Record turn := { role : pystr; content : pystr }.

(** [l[start:]] *)
Definition slice_from {A} (start : Z) (l : list A) : list A :=
  let n := Z.of_nat (length l) in
  let i := if (start <? 0)%Z then Z.max 0 (start + n) else Z.min start n in
  drop (Z.to_nat i) l.

Module MemoryManager.

(** The object: the store [user_id -> session_id -> turns], the [persist]
    flag and, standing for the pickle file, the snapshots handed to
    [pickle.dump] so far (newest first).  Whether a write reaches the disk is
    the file system's affair: [save_memory] swallows a failure. *)
Record t := {
  memory_store : gmap (list N) (gmap (list N) (list turn));
  persist : bool;
  dumped : list (gmap (list N) (gmap (list N) (list turn)));
}.

Definition with_store (st : gmap (list N) (gmap (list N) (list turn))) (m : t) : t :=
  {| memory_store := st; persist := persist m; dumped := dumped m |}.

Definition save_memory (m : t) : t :=
  {| memory_store := memory_store m; persist := persist m;
     dumped := memory_store m :: dumped m |}.

Definition save_if_persist (m : t) : t :=
  if persist m then save_memory m else m.

Definition add_chat_user (user_id : pystr) (m : t) : t :=
  match memory_store m !! user_id with
  | None => save_if_persist (with_store (<[user_id := ∅]> (memory_store m)) m)
  | Some _ => m
  end.

Definition add_chat_session (user_id session_id : pystr) (m : t) : result t :=
  let m := add_chat_user user_id m in
  sessions ← getitem (memory_store m !! user_id);
  match sessions !! session_id with
  | None =>
      Ok (save_if_persist
            (with_store (<[user_id := <[session_id := []]> sessions]> (memory_store m)) m))
  | Some _ => Ok m
  end.

Definition add_message (user_id session_id role content : pystr) (m : t) : result t :=
  m ← add_chat_session user_id session_id m;
  sessions ← getitem (memory_store m !! user_id);
  history ← getitem (sessions !! session_id);
  let history := history ++ [{| role := role; content := content |}] in
  Ok (save_if_persist
        (with_store (<[user_id := <[session_id := history]> sessions]> (memory_store m)) m)).

Definition get_history (user_id session_id : pystr) (m : t) : list turn :=
  default [] (default ∅ (memory_store m !! user_id) !! session_id).

Definition format_turn (m : turn) : pystr := role m ++ py ": " ++ content m.

Definition get_context (user_id session_id : pystr) (top_k : option Z) (m : t) : pystr :=
  let history := get_history user_id session_id m in
  match history with
  | [] => []
  | _ :: _ =>
      let history :=
        match top_k with
        | Some k => slice_from (- k) history
        | None => history
        end in
      join [10] (map format_turn history)
  end.

Definition clear_session (user_id session_id : pystr) (m : t) : t :=
  match memory_store m !! user_id with
  | Some sessions =>
      match sessions !! session_id with
      | Some _ =>
          save_if_persist
            (with_store (<[user_id := <[session_id := []]> sessions]> (memory_store m)) m)
      | None => m
      end
  | None => m
  end.

Definition remove_session (user_id session_id : pystr) (m : t) : t :=
  match memory_store m !! user_id with
  | Some sessions =>
      save_if_persist
        (with_store (<[user_id := delete session_id sessions]> (memory_store m)) m)
  | None => m
  end.

Definition remove_user (user_id : pystr) (m : t) : t :=
  save_if_persist (with_store (delete user_id (memory_store m)) m).

(** [list(d.keys())]: Python lists the keys in the order of their insertion.
    The store keeps no such order, so the keys come in the order of the map;
    only the number of the keys and membership are meaningful. *)
Definition list_users (m : t) : list pystr := (map_to_list (memory_store m)).*1.

Definition list_sessions (user_id : pystr) (m : t) : list pystr :=
  (map_to_list (default ∅ (memory_store m !! user_id))).*1.

End MemoryManager.

(** The constructor and [load_memory].  [file] is the pickle file as the
    constructor finds it: [None] when it does not exist, else what
    [pickle.load] makes of it, a store or an exception. *)
Module Persistence.

Definition load_memory
    (file : option (result (gmap (list N) (gmap (list N) (list turn)))))
    (m : MemoryManager.t) : MemoryManager.t :=
  match file with
  | Some loaded => MemoryManager.with_store (try_except loaded ∅) m
  | None => m
  end.

Definition init (persist : bool)
    (file : option (result (gmap (list N) (gmap (list N) (list turn)))))
    : MemoryManager.t :=
  let self :=
    {| MemoryManager.memory_store := ∅; MemoryManager.persist := persist;
       MemoryManager.dumped := [] |} in
  if persist then load_memory file self else self.

End Persistence.

(** ** [agents/langgraph_agents.py] *)

(** The two system prompts of [prompt_template.py]; only which one is sent
    matters to the control flow. *)
Inductive prompt :=
| supervisor_system_prompt_3
| report_system_prompt_1.

Inductive message :=
| SystemMessage (p : prompt)
| HumanMessage (text : pystr).

(** The collaborators a request carries in its state: the chat model (the
    content of the reply to the messages), the speech-to-text model, the
    vision-language model (the content of the reply to the video path and the
    query), the report renderer and the draw of [random.choice]. *)
Record Collaborators := {
  hug_llm : list message -> result pystr;
  transcript_model : pystr -> result pystr;
  vlm : pystr -> pystr -> result pystr;
  generate_report : json -> result pystr;
  random_draw : nat;
}.

(** [random.choice(seq)] *)
Definition random_choice (env : Collaborators) (seq : list pystr) : result pystr :=
  match seq with
  | [] => Raise IndexError
  | _ :: _ => Ok (nth (random_draw env mod length seq)%nat seq [])
  end.

(** [GraphState]: a dict, any key of which may be missing. *)
Record GraphState := {
  user_id : option pystr;
  session_id : option pystr;
  user_query : option pystr;
  video_path : option pystr;
  final_response : option pystr;
  report_path : option pystr;
  chat_history : option pystr;
  memory : option MemoryManager.t;
  orchestrator_msg : option pystr;
}.

Definition set_final_response (v : pystr) (s : GraphState) : GraphState :=
  {| user_id := user_id s; session_id := session_id s; user_query := user_query s;
     video_path := video_path s; final_response := Some v; report_path := report_path s;
     chat_history := chat_history s; memory := memory s;
     orchestrator_msg := orchestrator_msg s |}.

Definition set_report_path (v : pystr) (s : GraphState) : GraphState :=
  {| user_id := user_id s; session_id := session_id s; user_query := user_query s;
     video_path := video_path s; final_response := final_response s; report_path := Some v;
     chat_history := chat_history s; memory := memory s;
     orchestrator_msg := orchestrator_msg s |}.

Definition set_chat_history (v : pystr) (s : GraphState) : GraphState :=
  {| user_id := user_id s; session_id := session_id s; user_query := user_query s;
     video_path := video_path s; final_response := final_response s;
     report_path := report_path s; chat_history := Some v; memory := memory s;
     orchestrator_msg := orchestrator_msg s |}.

Definition set_memory (v : MemoryManager.t) (s : GraphState) : GraphState :=
  {| user_id := user_id s; session_id := session_id s; user_query := user_query s;
     video_path := video_path s; final_response := final_response s;
     report_path := report_path s; chat_history := chat_history s; memory := Some v;
     orchestrator_msg := orchestrator_msg s |}.

Definition set_orchestrator_msg (v : pystr) (s : GraphState) : GraphState :=
  {| user_id := user_id s; session_id := session_id s; user_query := user_query s;
     video_path := video_path s; final_response := final_response s;
     report_path := report_path s; chat_history := chat_history s; memory := memory s;
     orchestrator_msg := Some v |}.

Definition apology : pystr :=
  Eval vm_compute in
    py "🤒 Sorry, I cannot fullfill your request, a thousand apologies. 👏👏👏".

Definition load_memory (state : GraphState) : result GraphState :=
  match memory state, user_id state, session_id state with
  | Some mem, Some uid, Some sid =>
      mem ← MemoryManager.add_chat_session uid sid mem;
      let chat_history := MemoryManager.get_context uid sid (Some 8%Z) mem in
      Ok (set_chat_history chat_history (set_memory mem state))
  | _, _, _ => Raise KeyError
  end.

Definition orchestrator (env : Collaborators) (state : GraphState) : result GraphState :=
  user_query ← getitem (user_query state);
  let messages := [SystemMessage supervisor_system_prompt_3; HumanMessage user_query] in
  response ← hug_llm env messages;
  let ai_msg := clean_think_blocks response in
  Ok (set_orchestrator_msg ai_msg (set_final_response ai_msg state)).

Inductive route :=
| video_analyst
| transcript_analyst
| report_analyst
| end_.

#[export] Instance route_eq_dec : EqDecision route.
Proof. solve_decision. Defined.

(** The body of the [try] of [orchestrator_route]. *)
Definition route_decision (orchestrator_msg : pystr) : result route :=
  json_data ← json_loads orchestrator_msg;
  if truthy json_data then
    task_name ← subscript json_data (py "Task_name");
    agent_name ← subscript json_data (py "agent_name");
    if eq_str task_name (py "video_analysis") || eq_str agent_name (py "video_analyst")
    then Ok video_analyst
    else if eq_str task_name (py "transcript_analysis")
            || eq_str agent_name (py "transcript_analyst")
    then Ok transcript_analyst
    else if eq_str task_name (py "report_generation")
            || eq_str agent_name (py "report_analyst")
    then Ok report_analyst
    else Ok end_
  else Ok end_.

Definition orchestrator_route (state : GraphState) : result route :=
  orchestrator_msg ← getitem (orchestrator_msg state);
  Ok (try_except (route_decision orchestrator_msg) end_).

(** [template.format(text=text)] for the templates of this program: the
    field [{text}] is replaced and doubled braces stand for one.  The
    templates use a brace in no other way; such a use is reported as an
    error here. *)
Fixpoint format_text (template text : pystr) : result pystr :=
  match template with
  | [] => Ok []
  | c :: t =>
      if c =? 123 then
        match t with
        | a :: t1 =>
            if a =? 123 then cons 123 <$> format_text t1 text
            else
              match t with
              | _ :: _ :: _ :: _ :: _ :: rest =>
                  if startswith (py "text}") t
                  then app text <$> format_text rest text
                  else Raise KeyError
              | _ => Raise ValueError
              end
        | [] => Raise ValueError
        end
      else if c =? 125 then
        match t with
        | a :: t1 => if a =? 125 then cons 125 <$> format_text t1 text else Raise ValueError
        | [] => Raise ValueError
        end
      else cons c <$> format_text t text
  end.

(** A template of [ai_responses]: a greeting, a newline, the field. *)
Definition ack (greeting : string) : pystr := py greeting ++ [10] ++ py "{text}".

Definition ai_responses : list pystr :=
  Eval vm_compute in
  [ ack "✅ Got it! Here's what I came up with: 👇";
    ack "💡 Sure thing! Take a look at this: 👇";
    ack "👍 No worries — here’s my response: 👇";
    ack "✨ Here’s what I’ve prepared for you: 👇";
    ack "🤖 Absolutely! Here’s the result: 👇";
    ack "👌 Sure! This is what I found: 👇";
    ack "🚀 Done! Here’s my output: 👇";
    ack "🧠 Here’s my take on that: 👇";
    ack "📘 Here’s the information you asked for: 👇";
    ack "✅ All set! Check out my answer below: 👇" ].

Definition success_responses : list pystr :=
  Eval vm_compute in
  [ py "✨ Sure! Your request has been completed successfully ✅";
    py "✅ Done! Everything went smoothly ✨";
    py "🎯 Request processed successfully — all set!";
    py "👍 Got it! Your request was handled perfectly ✅";
    py "🚀 Success! The task is now complete ✨";
    py "🌟 All done — your request went through successfully ✅";
    py "💪 Mission accomplished! Everything’s done as requested ✨";
    py "🧩 Your request was processed with no issues ✅";
    py "🎉 Great! Everything has been completed successfully ✨";
    py "✅ All set! Your request finished without any errors 🌟" ].

Definition transcript_agent (env : Collaborators) (state : GraphState) : result GraphState :=
  video_path ← getitem (video_path state);
  let ai_response :=
    try_except
      (text ← transcript_model env video_path;
       template ← random_choice env ai_responses;
       format_text template text)
      apology in
  Ok (set_final_response ai_response state).

Definition video_agent (env : Collaborators) (state : GraphState) : result GraphState :=
  video_path ← getitem (video_path state);
  user_query ← getitem (user_query state);
  let ai_response :=
    try_except
      (response ← vlm env video_path user_query;
       Ok (extract_assistant_response response))
      apology in
  Ok (set_final_response ai_response state).

(** The sentinel [report_path] of a turn without artifact; [app.py] offers a
    download unless the path equals it. *)
Definition no_report : pystr := Eval vm_compute in py "NA".

Definition user_query_with_history (chat_history user_query : pystr) : pystr :=
  [10] ++ py "    Based on our chat history:" ++ [10]
    ++ py "    " ++ chat_history ++ [10]
    ++ py "    " ++ user_query ++ [10]
    ++ py "    ".

Definition report_agent (env : Collaborators) (state : GraphState) : result GraphState :=
  mem ← getitem (memory state);
  uid ← getitem (user_id state);
  sid ← getitem (session_id state);
  user_query ← getitem (user_query state);
  let chat_history := MemoryManager.get_context uid sid (Some 8%Z) mem in
  let messages :=
    [SystemMessage report_system_prompt_1;
     HumanMessage (user_query_with_history chat_history user_query)] in
  response ← hug_llm env messages;
  let ai_msg := clean_think_blocks response in
  let '(report_file_path, ai_response) :=
    try_except
      (function_call ← json_loads ai_msg;
       args ← subscript function_call (py "args");
       report_file_path ← generate_report env args;
       ai_response ← random_choice env success_responses;
       Ok (report_file_path, ai_response))
      (no_report, apology) in
  Ok (set_final_response ai_response (set_report_path report_file_path state)).

Definition human_role : pystr := Eval vm_compute in py "Human".
Definition ai_role : pystr := Eval vm_compute in py "AI".

Definition update_memory (state : GraphState) : result GraphState :=
  mem ← getitem (memory state);
  uid ← getitem (user_id state);
  sid ← getitem (session_id state);
  user_query ← getitem (user_query state);
  final_response ← getitem (final_response state);
  mem ← MemoryManager.add_message uid sid human_role user_query mem;
  mem ← MemoryManager.add_message uid sid ai_role final_response mem;
  Ok (set_memory mem state).

(** *** The graph *)

Inductive node :=
| load_memory_node
| orchestrator_node
| transcript_agent_node
| video_agent_node
| report_agent_node
| update_memory_node.

#[export] Instance node_eq_dec : EqDecision node.
Proof. solve_decision. Defined.

(** What [build_graph] compiles: the entry point, the plain edges and the
    conditional edges, each with its path function and path map. *)
Record StateGraph := {
  entry : node;
  edges : list (node * node);
  conditional_edges : list (node * ((GraphState -> result route) * (route -> node)));
}.

Definition path_map (r : route) : node :=
  match r with
  | transcript_analyst => transcript_agent_node
  | video_analyst => video_agent_node
  | report_analyst => report_agent_node
  | end_ => update_memory_node
  end.

Definition build_graph : StateGraph :=
  {| entry := load_memory_node;
     edges := [ (load_memory_node, orchestrator_node);
                (transcript_agent_node, update_memory_node);
                (video_agent_node, update_memory_node);
                (report_agent_node, update_memory_node) ];
     conditional_edges := [ (orchestrator_node, (orchestrator_route, path_map)) ] |}.

(** The function registered for a node by [add_node]. *)
Definition run_node (env : Collaborators) (n : node) (state : GraphState) : result GraphState :=
  match n with
  | load_memory_node => load_memory state
  | orchestrator_node => orchestrator env state
  | transcript_agent_node => transcript_agent env state
  | video_agent_node => video_agent env state
  | report_agent_node => report_agent env state
  | update_memory_node => update_memory state
  end.

Fixpoint assoc {A B} `{EqDecision A} (k : A) (l : list (A * B)) : option B :=
  match l with
  | [] => None
  | (k', v) :: l' => if decide (k = k') then Some v else assoc k l'
  end.

(** The node that follows [n]: by its conditional edge when it has one, else
    by its plain edge; a node without outgoing edge ends the run. *)
Definition next_node (g : StateGraph) (n : node) (state : GraphState) : result (option node) :=
  match assoc n (conditional_edges g) with
  | Some (path, map) => r ← path state; Ok (Some (map r))
  | None => Ok (assoc n (edges g))
  end.

(** One run: the nodes entered, in order, and how the run ended.  [steps] is
    the recursion limit of the graph runtime. *)
Fixpoint run (env : Collaborators) (g : StateGraph) (steps : nat) (n : node)
    (state : GraphState) : list node * result GraphState :=
  match steps with
  | O => ([], Raise GraphRecursionError)
  | S k =>
      match run_node env n state with
      | Raise e => ([n], Raise e)
      | Ok state' =>
          match next_node g n state' with
          | Raise e => ([n], Raise e)
          | Ok None => ([n], Ok state')
          | Ok (Some n') => let '(tr, r) := run env g k n' state' in (n :: tr, r)
          end
      end
  end.

Definition recursion_limit : nat := 25.

(** [ai_workflow.invoke(workflow_state)] *)
Definition invoke (env : Collaborators) (state : GraphState) : list node * result GraphState :=
  run env build_graph recursion_limit (entry build_graph) state.

(** ** [app.py] *)

Module App.

Definition USER_ID : pystr := Eval vm_compute in py "user1".

(** [str(n)] of an [int] that is not negative: its decimal digits. *)
Definition str (n : nat) : pystr := N_of_ascii <$> list_ascii_of_string (pretty n).

(** [st.session_state] *)
Record session_state := { current_session : option pystr }.

Definition start_new_session (MEMORY : MemoryManager.t) (st : session_state)
    : result (MemoryManager.t * session_state) :=
  let session_name :=
    py "Session " ++ str (length (MemoryManager.list_sessions USER_ID MEMORY) + 1) in
  MEMORY ← MemoryManager.add_chat_session USER_ID session_name MEMORY;
  Ok (MEMORY, {| current_session := Some session_name |}).

(** The name of the current session counts as true when it is neither
    [None] nor empty. *)
Definition get_current_messages (MEMORY : MemoryManager.t) (st : session_state)
    : list turn :=
  match current_session st with
  | Some (c :: name) => MemoryManager.get_history USER_ID (c :: name) MEMORY
  | _ => []
  end.


End App.

(** ** [agents/transcript_agent.py] *)

(** [l[start:stop]] *)
Definition slice {A} (start stop : Z) (l : list A) : list A :=
  let n := Z.of_nat (length l) in
  let clamp i := if (i <? 0)%Z then Z.max 0 (i + n) else Z.min i n in
  take (Z.to_nat (clamp stop - clamp start)) (drop (Z.to_nat (clamp start)) l).

(** [range(0, stop, step)] for a [stop] that is not negative *)
Definition range0 (stop : nat) (step : Z) : result (list Z) :=
  if (step =? 0)%Z then Raise ValueError
  else if (step <? 0)%Z then Ok []
  else Ok ((λ k, Z.of_nat k * step)%Z
             <$> seq 0 (Z.to_nat ((Z.of_nat stop + step - 1) / step))).

Module VoiceToText.

(** A tensor of shape [channels, frames]: the samples of all channels at one
    instant make a frame. *)
Record tensor (frame : Type) := { channels : nat; frames : list frame }.
Arguments channels {frame} _.
Arguments frames {frame} _.

(** [x.numel()] *)
Definition numel {frame} (x : tensor frame) : nat := (channels x * length (frames x))%nat.

(** [x[:, start:stop]] *)
Definition columns {frame} (start stop : Z) (x : tensor frame) : tensor frame :=
  {| channels := channels x; frames := slice start stop (frames x) |}.

(** What [transcribe] calls: the suffix of a path in lower case, the path
    as [str(Path(p))] gives it, [extract_audio_from_video], [torchaudio.load],
    the resampler from a rate to 16000, the Whisper processor and model with
    [batch_decode] (the first text decoded for a chunk at a rate), and
    [os.path.exists] and [os.remove]. *)
Record Engine (frame : Type) := {
  suffix_lower : pystr → pystr;
  path_str : pystr → pystr;
  extract_audio_from_video : pystr → result pystr;
  torchaudio_load : pystr → result (tensor frame * Z);
  resample : Z → tensor frame → result (tensor frame);
  recognize : tensor frame → Z → result pystr;
  path_exists : pystr → bool;
  os_remove : pystr → result ();
}.
Arguments suffix_lower {frame} _ _.
Arguments path_str {frame} _ _.
Arguments extract_audio_from_video {frame} _ _.
Arguments torchaudio_load {frame} _ _.
Arguments resample {frame} _ _ _.
Arguments recognize {frame} _ _ _.
Arguments path_exists {frame} _ _.
Arguments os_remove {frame} _ _.

(** The loop over the chunks (step 4), [starts] being the values of [i]
    still to come. *)
Fixpoint transcribe_chunks {frame} (self : Engine frame) (speech_array : tensor frame)
    (sampling_rate chunk_size : Z) (starts : list Z) (all_text : list pystr)
    : result (list pystr) :=
  match starts with
  | [] => Ok all_text
  | i :: starts' =>
      let chunk := columns i (i + chunk_size) speech_array in
      if (length (frames chunk) =? 0)%nat
      then transcribe_chunks self speech_array sampling_rate chunk_size starts' all_text
      else
        transcription ← recognize self chunk sampling_rate;
        transcribe_chunks self speech_array sampling_rate chunk_size starts'
          (all_text ++ [strip transcription])
  end.

(** Steps 2 to 4 of [transcribe], on the audio file. *)
Definition transcribe_audio {frame} (self : Engine frame) (file_path : pystr)
    (chunk_length_s : Z) : result pystr :=
  '(speech_array, sampling_rate) ← torchaudio_load self (path_str self file_path);
  if (numel speech_array =? 0)%nat then Raise ValueError
  else
    '(speech_array, sampling_rate) ←
      (if (sampling_rate =? 16000)%Z then Ok (speech_array, sampling_rate)
       else
         speech_array ← resample self sampling_rate speech_array;
         Ok (speech_array, 16000%Z));
    let chunk_size := (chunk_length_s * sampling_rate)%Z in
    starts ← range0 (length (frames speech_array)) chunk_size;
    all_text ← transcribe_chunks self speech_array sampling_rate chunk_size starts [];
    Ok (join (py " ") all_text).

(** [try: body  finally: cleanup]: the outcome of the body stands unless the
    cleanup raises. *)
Definition finally {A} (body : result A) (cleanup : result ()) : result A :=
  match cleanup with
  | Ok _ => body
  | Raise e => Raise e
  end.

Definition transcribe {frame} (self : Engine frame) (file_path : pystr)
    (chunk_length_s : Z) : result pystr :=
  let '(temp_audio_path, outcome) :=
    if bool_decide (suffix_lower self file_path = py ".mp4") then
      match extract_audio_from_video self file_path with
      | Ok temp_audio_path =>
          (Some temp_audio_path, transcribe_audio self temp_audio_path chunk_length_s)
      | Raise e => (None, Raise e)
      end
    else (None, transcribe_audio self file_path chunk_length_s) in
  finally outcome
    match temp_audio_path with
    | Some (c :: p) =>
        if path_exists self (c :: p) then os_remove self (c :: p) else Ok ()
    | _ => Ok ()
    end.

End VoiceToText.

(** ** The specification's text transforms, in its own words *)

(** [strip_reasoning]: as long as the text holds an opening tag and, after
    it, a closing tag, the part from the first opening tag to the next
    closing tag is cut out; the search goes on behind it. *)
Fixpoint remove_think_segments (rounds : nat) (text : pystr) : pystr :=
  match rounds with
  | O => text
  | S n =>
      match partition think_open text with
      | None => text
      | Some (before, rest) =>
          match partition think_close rest with
          | None => text
          | Some (_, after) => before ++ remove_think_segments n after
          end
      end
  end.

Definition strip_reasoning (text : pystr) : pystr :=
  strip (remove_think_segments (length text) text).

(** The leading marker of [extract_reply]: the brain emoji, whitespace, the
    word Response with its colon, whitespace. *)
Definition remove_marker (text : pystr) : pystr :=
  match text with
  | c :: t =>
      if (c =? brain) && startswith response_word (lstrip t)
      then lstrip (drop (length response_word) (lstrip t))
      else text
  | [] => []
  end.

Definition extract_reply (text : pystr) : pystr :=
  let cleaned := remove_marker (strip text) in
  match partition assistant_delim cleaned with
  | Some (_, after) => strip after
  | None => strip cleaned
  end.

(** ** The vocabulary of the statements *)

(** *** Matches *)

Definition match_rest (ab : list N * list N) : re_match :=
  {| m_rest := ab.2; m_group := None |}.

Definition marker_rest (t : list N) : re_match :=
  {| m_rest := lstrip t; m_group := None |}.

Definition reply_of (ab : list N * list N) : re_match :=
  {| m_rest := []; m_group := Some (lstrip ab.2) |}.

(** *** Sessions *)

(** The session [(u, s)] is in the store. *)
Definition has_session (u s : list N) (m : MemoryManager.t) : Prop :=
  ∃ sessions history,
    MemoryManager.memory_store m !! u = Some sessions ∧ sessions !! s = Some history.

(** The [n] most recent of a list of turns. *)
Definition last_n {A} (n : nat) (l : list A) : list A := drop (length l - n) l.

Definition human_turn (query : list N) : turn := {| role := human_role; content := query |}.

Definition ai_turn (response : list N) : turn := {| role := ai_role; content := response |}.

(** A session of two turns. *)
Definition two_turns : MemoryManager.t :=
  {| MemoryManager.memory_store :=
       {[ py "user1" :=
            {[ py "Session 1" := [human_turn (py "hi"); ai_turn (py "hello")] ]} ]};
     MemoryManager.persist := false; MemoryManager.dumped := [] |}.

(** *** Routing *)

(** The three branches of [orchestrator_route] in the order they are tried:
    the label, the task name and the agent name that select it. *)
Definition branches : list (route * (list N * list N)) :=
  [ (video_analyst, (py "video_analysis", py "video_analyst"));
    (transcript_analyst, (py "transcript_analysis", py "transcript_analyst"));
    (report_analyst, (py "report_generation", py "report_analyst")) ].

Definition branch_matches (task_name agent_name : json)
    (b : route * (list N * list N)) : bool :=
  eq_str task_name b.2.1 || eq_str agent_name b.2.2.

(** The first branch that either field matches, [end_] when none does. *)
Definition first_branch (task_name agent_name : json) : route :=
  match find (branch_matches task_name agent_name) branches with
  | Some b => b.1
  | None => end_
  end.

(** The routing policy: an object holding both fields is routed by its
    first matching branch, anything else ends the turn. *)
Definition routing_policy (msg : list N) : route :=
  match json_loads msg with
  | Ok (JObject d) =>
      match dict_get (py "Task_name") d, dict_get (py "agent_name") d with
      | Some t, Some a => first_branch t a
      | _, _ => end_
      end
  | _ => end_
  end.

(** A state that holds nothing but the classifier's output. *)
Definition state_of_msg (msg : list N) : GraphState :=
  {| user_id := None; session_id := None; user_query := None; video_path := None;
     final_response := None; report_path := None; chat_history := None;
     memory := None; orchestrator_msg := Some msg |}.

(** The JSON object the supervisor prompt asks for, laid out as there. *)
Definition classifier_reply (task agent : string) : list N :=
  py "{" ++ [10] ++ py "    " ++ quoted (py "Task_name") ++ py ": " ++ quoted (py task)
    ++ py "," ++ [10] ++ py "    " ++ quoted (py "agent_name") ++ py ": "
    ++ quoted (py agent) ++ [10] ++ py "}".

(** An object with one field only. *)
Definition one_field_reply (key value : string) : list N :=
  py "{" ++ quoted (py key) ++ py ": " ++ quoted (py value) ++ py "}".

(** The refusal the supervisor prompt prescribes for several tasks at once. *)
Definition mercy_message : list N :=
  Eval vm_compute in
    py "Hi, please have mercy on me 🥲. You’re giving me too many tasks! I’m just a small local model and can only handle one task at a time 👏👏👏.".

(** *** Handlers *)

(** A template without its field. *)
Definition template_head (template : list N) : list N :=
  take (length template - length (py "{text}")) template.

Definition no_brace (g : list N) : bool :=
  forallb (fun c => negb (c =? 123) && negb (c =? 125)) g.

(** The second-stage call of [report_agent]. *)
Definition report_messages (mem : MemoryManager.t) (uid sid query : list N) : list message :=
  [SystemMessage report_system_prompt_1;
   HumanMessage
     (user_query_with_history (MemoryManager.get_context uid sid (Some 8%Z) mem) query)].

(** The first call of the chat model in a run. *)
Definition classifier_messages (query : list N) : list message :=
  [SystemMessage supervisor_system_prompt_3; HumanMessage query].

(** *** The stages of a run *)

(** The stages of a run, written out: [stage] runs one node and hands the
    state to what follows; the run ends behind [update_memory]. *)
Definition stage (env : Collaborators) (n : node)
    (next : GraphState → list node * result GraphState) (state : GraphState)
    : list node * result GraphState :=
  match run_node env n state with
  | Raise e => ([n], Raise e)
  | Ok state' => let '(trace, outcome) := next state' in (n :: trace, outcome)
  end.

Definition finished (state : GraphState) : list node * result GraphState :=
  ([], Ok state).

Definition pipeline (env : Collaborators) (state : GraphState)
    : list node * result GraphState :=
  stage env load_memory_node
    (stage env orchestrator_node
       (fun classified =>
          match orchestrator_route classified with
          | Raise e => ([], Raise e)
          | Ok r => stage env (path_map r)
                      (match r with
                       | end_ => finished
                       | _ => stage env update_memory_node finished
                       end) classified
          end))
    state.

(** *** Example requests *)

(** Collaborators that answer the same way whatever they are asked: the
    chat model by the system prompt it is sent. *)
Definition fixed_env (classifier report transcript vision render : result (list N))
    (draw : nat) : Collaborators :=
  {| hug_llm := fun messages =>
       match messages with
       | SystemMessage supervisor_system_prompt_3 :: _ => classifier
       | SystemMessage report_system_prompt_1 :: _ => report
       | _ => Raise (RuntimeError [])
       end;
     transcript_model := fun _ => transcript;
     vlm := fun _ _ => vision;
     generate_report := fun _ => render;
     random_draw := draw |}.

Definition failure : result (list N) := Raise (RuntimeError (py "inference failed")).

Definition empty_memory : MemoryManager.t :=
  {| MemoryManager.memory_store := ∅; MemoryManager.persist := true;
     MemoryManager.dumped := [] |}.

(** The state [app.py] hands to the graph. *)
Definition request (query : string) : GraphState :=
  {| user_id := Some (py "user1"); session_id := Some (py "Session 1");
     user_query := Some (py query); video_path := Some (py "uploaded/cat.mp4");
     final_response := None; report_path := Some no_report; chat_history := None;
     memory := Some empty_memory; orchestrator_msg := None |}.


(** A function call as the report prompt asks for it. *)
Definition report_reply : list N :=
  py "{" ++ quoted (py "tool_name") ++ py ": " ++ quoted (py "generate_file") ++ py ", "
    ++ quoted (py "args") ++ py ": {"
    ++ quoted (py "file_type") ++ py ": " ++ quoted (py "pdf") ++ py ", "
    ++ quoted (py "title") ++ py ": " ++ quoted (py "Cat video") ++ py ", "
    ++ quoted (py "sections") ++ py ": [{"
    ++ quoted (py "heading") ++ py ": " ++ quoted (py "Summary") ++ py ", "
    ++ quoted (py "content") ++ py ": " ++ quoted (py "A cat meows twice.") ++ py "}], "
    ++ quoted (py "output_path") ++ py ": " ++ quoted (py "cat_report") ++ py "}}".

Definition report_args : json :=
  JObject
    [ (py "file_type", JString (py "pdf"));
      (py "title", JString (py "Cat video"));
      (py "sections",
       JArray [ JObject [ (py "heading", JString (py "Summary"));
                          (py "content", JString (py "A cat meows twice.")) ] ]);
      (py "output_path", JString (py "cat_report")) ].

(** *** The store over time *)

(** The names of the sessions of a user. *)
Definition sessions_of (u : list N) (m : MemoryManager.t) : gset (list N) :=
  dom (default ∅ (MemoryManager.memory_store m !! u)).

(** One call of a method of the sections User and Session Management,
    Message Handling and Cleanup of [MemoryManager]. *)
Inductive method_call : MemoryManager.t → MemoryManager.t → Prop :=
| call_add_chat_user u m : method_call m (MemoryManager.add_chat_user u m)
| call_add_chat_session u s m m' :
    MemoryManager.add_chat_session u s m = Ok m' → method_call m m'
| call_add_message u s r c m m' :
    MemoryManager.add_message u s r c m = Ok m' → method_call m m'
| call_clear_session u s m : method_call m (MemoryManager.clear_session u s m)
| call_remove_session u s m : method_call m (MemoryManager.remove_session u s m)
| call_remove_user u m : method_call m (MemoryManager.remove_user u m).

(** What [m'] has written since [m]: the flag is the same; the snapshots
    of [m] are still there; nothing was written without the flag; with it,
    either nothing happened or the snapshot written last is the store. *)
Definition saved_since (m m' : MemoryManager.t) : Prop :=
  MemoryManager.persist m' = MemoryManager.persist m
  ∧ MemoryManager.dumped m `suffix_of` MemoryManager.dumped m'
  ∧ (MemoryManager.persist m = false → MemoryManager.dumped m' = MemoryManager.dumped m)
  ∧ (MemoryManager.persist m = true →
     m' = m ∨ head (MemoryManager.dumped m') = Some (MemoryManager.memory_store m')).

(** What the file holds after the writes of [m], when it held [file] before
    them and every write reached it. *)
Definition file_after
    (file : option (result (gmap (list N) (gmap (list N) (list turn)))))
    (m : MemoryManager.t)
    : option (result (gmap (list N) (gmap (list N) (list turn)))) :=
  match MemoryManager.dumped m with
  | st :: _ => Some (Ok st)
  | [] => file
  end.

(** *** The chats of the app *)

(** The name [start_new_session] gives to the [k]-th chat. *)
Definition session_name (k : nat) : list N := py "Session " ++ App.str k.

(** The chats of the user of the app are Session 1 to Session [n]. *)
Definition numbered (n : nat) (m : MemoryManager.t) : Prop :=
  sessions_of App.USER_ID m = list_to_set (session_name <$> seq 1 n).

(** *** Chunks *)

(** The pieces the loop of [transcribe] cuts a list into: the slices of
    [size] elements that start at the multiples of [size]. *)
Definition pieces {A} (size : nat) (l : list A) : list (list A) :=
  (λ j, take size (drop (j * size) l)) <$> seq 0 ((length l + size - 1) / size)%nat.

(** An audio file of one channel and [n] frames, and an engine that loads
    it at the rate given, for every path, and hears the same text in every
    chunk. *)
Definition tone (n : nat) : VoiceToText.tensor nat :=
  {| VoiceToText.channels := 1; VoiceToText.frames := seq 0 n |}.

Definition fixed_engine (audio : VoiceToText.tensor nat) (rate : Z) (text : list N)
    : VoiceToText.Engine nat :=
  {| VoiceToText.suffix_lower := λ _, py ".wav";
     VoiceToText.path_str := λ p, p;
     VoiceToText.extract_audio_from_video := λ _, failure;
     VoiceToText.torchaudio_load := λ _, Ok (audio, rate);
     VoiceToText.resample := λ _ x, Ok x;
     VoiceToText.recognize := λ _ _, Ok text;
     VoiceToText.path_exists := λ _, false;
     VoiceToText.os_remove := λ _, Ok () |}.


(* ===================================================================== *)
(** * Part II: properties                                                 *)
(* ===================================================================== *)

(** ** Strings *)

Section strings.

Implicit Types s t w sep : list N.

Lemma startswith_true w s : startswith w s = true ↔ ∃ t, s = w ++ t.
Proof.
  revert s. induction w as [|a w IH]; intros s; simpl.
  - split; [intros _; by exists s | done].
  - destruct s as [|b s].
    + split; [done | intros [t Ht]; discriminate].
    + rewrite andb_true_iff, N.eqb_eq, IH. split.
      * intros [-> [t ->]]. by exists t.
      * intros [t Ht]. injection Ht as -> ->. eauto.
Qed.

Lemma startswith_app w t : startswith w (w ++ t) = true.
Proof. apply startswith_true. by exists t. Qed.

Lemma startswith_drop w s :
  startswith w s = true → s = w ++ drop (length w) s.
Proof.
  intros [t ->]%startswith_true. by rewrite drop_app_length.
Qed.

Lemma partition_inv sep s a b :
  partition sep s = Some (a, b) → s = a ++ sep ++ b.
Proof.
  revert a b. induction s as [|c s IH]; intros a b; simpl.
  - destruct (startswith sep []) eqn:E; [|done].
    intros [= <- <-]. by apply startswith_drop in E.
  - destruct (startswith sep (c :: s)) eqn:E.
    + intros [= <- <-]. by apply startswith_drop in E.
    + destruct (partition sep s) as [[a' b']|]; [|done].
      intros [= <- <-]. simpl. f_equal. by apply IH.
Qed.

(** The occurrence [partition] finds is the first. *)
Lemma partition_first sep s a b i :
  partition sep s = Some (a, b) →
  startswith sep (drop i s) = true → (length a ≤ i)%nat.
Proof.
  revert a b i. induction s as [|c s IH]; intros a b i; simpl.
  - destruct (startswith sep []) eqn:E; [|done].
    intros [= <- <-] _. simpl. lia.
  - destruct (startswith sep (c :: s)) eqn:E.
    + intros [= <- <-] _. simpl. lia.
    + destruct (partition sep s) as [[a' b']|] eqn:P; [|done].
      intros [= <- <-] H. destruct i as [|i]; simpl in *.
      * congruence.
      * apply le_n_S. by eapply IH.
Qed.

Lemma partition_None sep s i :
  partition sep s = None → startswith sep (drop i s) = false.
Proof.
  revert i. induction s as [|c s IH]; intros i; simpl.
  - destruct (startswith sep []) eqn:E; [done|]. intros _. by rewrite drop_nil.
  - destruct (startswith sep (c :: s)) eqn:E; [done|].
    destruct (partition sep s) as [[a' b']|] eqn:P; [done|].
    intros _. destruct i as [|i]; simpl; [done | by apply IH].
Qed.

Lemma partition_is_Some sep s i :
  startswith sep (drop i s) = true → is_Some (partition sep s).
Proof.
  intros H. destruct (partition sep s) eqn:P; [done|].
  by rewrite (partition_None _ _ i P) in H.
Qed.

Lemma partition_None_drop sep s i :
  partition sep s = None → partition sep (drop i s) = None.
Proof.
  intros H. destruct (partition sep (drop i s)) as [[a b]|] eqn:P; [|done].
  apply partition_inv in P.
  assert (startswith sep (drop (i + length a) s) = true) as E.
  { rewrite <- drop_drop, P, drop_app_length. apply startswith_app. }
  by rewrite (partition_None _ _ _ H) in E.
Qed.

Lemma partition_unfold sep s :
  partition sep s =
    if startswith sep s then Some ([], drop (length sep) s)
    else match s with
         | [] => None
         | c :: s' =>
             match partition sep s' with
             | Some (a, b) => Some (c :: a, b)
             | None => None
             end
         end.
Proof. by destruct s. Qed.

Lemma partition_app sep a b :
  (∀ i, (i < length a)%nat → startswith sep (drop i (a ++ sep ++ b)) = false) →
  partition sep (a ++ sep ++ b) = Some (a, b).
Proof.
  induction a as [|c a IH]; intros H; simpl.
  - rewrite partition_unfold, startswith_app. by rewrite drop_app_length.
  - pose proof (H 0%nat ltac:(simpl; lia)) as H0. simpl in H0. rewrite H0.
    rewrite IH; [done|]. intros i Hi. apply (H (S i)). simpl. lia.
Qed.

Lemma lstrip_not_space s c t : lstrip s = c :: t → is_space c = false.
Proof.
  induction s as [|x s IH]; simpl; [done|].
  destruct (is_space x) eqn:E; [done|]. by intros [= <- <-].
Qed.

Lemma lstrip_idemp s : lstrip (lstrip s) = lstrip s.
Proof.
  destruct (lstrip s) as [|c t] eqn:E; [done|].
  simpl. by rewrite (lstrip_not_space _ _ _ E).
Qed.

Lemma lstrip_length s : (length (lstrip s) ≤ length s)%nat.
Proof. induction s as [|c s IH]; simpl; [done|]. destruct (is_space c); simpl; lia. Qed.

Lemma rstrip_lstrip s : lstrip (rstrip (lstrip s)) = rstrip (lstrip s).
Proof.
  destruct (lstrip s) as [|c t] eqn:E; [done|].
  pose proof (lstrip_not_space _ _ _ E) as Hc. simpl.
  destruct (rstrip t); rewrite ?Hc; simpl; by rewrite Hc.
Qed.

Lemma rstrip_idemp s : rstrip (rstrip s) = rstrip s.
Proof.
  induction s as [|c s IH]; simpl; [done|].
  destruct (rstrip s) as [|d r] eqn:E.
  - destruct (is_space c) eqn:Hc; simpl; [done | by rewrite Hc].
  - simpl in *. by rewrite IH.
Qed.

Lemma strip_idemp s : strip (strip s) = strip s.
Proof. unfold strip. by rewrite rstrip_lstrip, rstrip_idemp. Qed.

Lemma strip_lstrip s : strip (lstrip s) = strip s.
Proof. unfold strip. by rewrite lstrip_idemp. Qed.

End strings.

(** ** The matcher on the three patterns *)

Section matcher.

Implicit Types s t w : list N.
Implicit Types p : list item.

Lemma match_here_lit w p bol gs s :
  match_here (lit w ++ p) bol gs s =
    if startswith w s
    then match_here p (match w with [] => bol | _ => false end) gs (drop (length w) s)
    else None.
Proof.
  revert bol s. induction w as [|a w IH]; intros bol s; simpl; [done|].
  destruct s as [|c s]; [done|]. simpl.
  destruct (a =? c); [|done]. rewrite IH. by destruct w.
Qed.

Lemma match_here_bol p gs s :
  match_here (RBol :: p) true gs s = match_here p true gs s.
Proof. done. Qed.

Lemma match_here_class k p b gs c s :
  match_here (RClass k :: p) b gs (c :: s) =
    if class_ok k c then match_here p false gs s else None.
Proof. done. Qed.

Lemma lazy_unfold k p b gs s :
  match_here (RStar false k :: p) b gs s =
    match match_here p b gs s with
    | Some m => Some m
    | None =>
        match s with
        | c :: s' => if class_ok k c then match_here (RStar false k :: p) false gs s' else None
        | [] => None
        end
    end.
Proof. by destruct s. Qed.

Lemma greedy_unfold k p b gs s :
  match_here (RStar true k :: p) b gs s =
    match s with
    | c :: s' =>
        if class_ok k c then
          match match_here (RStar true k :: p) false gs s' with
          | Some m => Some m
          | None => match_here p b gs s
          end
        else match_here p b gs s
    | [] => match_here p b gs s
    end.
Proof. by destruct s. Qed.

(** A lazy [.*?] before a literal stops at the first occurrence of the
    literal. *)
Lemma lazy_dot_lit w b gs s :
  match_here (RStar false CDot :: lit w) b gs s = match_rest <$> partition w s.
Proof.
  revert b. induction s as [|c s IH]; intros b.
  - rewrite lazy_unfold, <- (app_nil_r (lit w)), match_here_lit. simpl.
    by destruct (startswith w []).
  - rewrite lazy_unfold, <- (app_nil_r (lit w)), match_here_lit.
    rewrite partition_unfold.
    destruct (startswith w (c :: s)); [done|]. simpl class_ok. cbv iota.
    rewrite (app_nil_r (lit w)), IH. by destruct (partition w s) as [[??]|].
Qed.

Lemma think_match b s :
  match_here think_pattern b None s =
    if startswith think_open s
    then match_rest <$> partition think_close (drop (length think_open) s)
    else None.
Proof.
  unfold think_pattern. rewrite match_here_lit.
  destruct (startswith think_open s); [|done]. apply lazy_dot_lit.
Qed.

(** Dropping the characters of a match. *)
Lemma sub_from_skip p b k s :
  sub_from p b (S k) s = sub_from p false 0 (drop (S k) s).
Proof.
  revert b k. induction s as [|c s IH]; intros b k; [done|]. simpl.
  destruct k as [|k]; [done|]. apply IH.
Qed.

Lemma sub_from_unmatched p b c s :
  match_here p b None (c :: s) = None →
  sub_from p b 0 (c :: s) = c :: sub_from p false 0 s.
Proof. intros H. simpl in *. by rewrite H. Qed.

Lemma sub_from_matched p b s m :
  match_here p b None s = Some m →
  (length (m_rest m) < length s)%nat →
  sub_from p b 0 s = sub_from p false 0 (drop (length s - length (m_rest m)) s).
Proof.
  intros H Hlen. destruct s as [|c s]; [simpl in Hlen; lia|].
  cbn [sub_from]. rewrite H.
  destruct (length (c :: s) - length (m_rest m))%nat as [|k] eqn:E; [lia|].
  destruct k as [|k]; [done|]. by rewrite sub_from_skip.
Qed.

(** Where no position matches, nothing is cut. *)
Lemma sub_from_no_match p s :
  (∀ i, match_here p false None (drop i s) = None) →
  sub_from p false 0 s = s.
Proof.
  induction s as [|c s IH]; intros H; [done|].
  rewrite sub_from_unmatched by apply (H 0%nat).
  f_equal. apply IH. intros i. apply (H (S i)).
Qed.

(** A prefix without match is copied. *)
Lemma sub_from_prefix p a t :
  (∀ i, (i < length a)%nat → match_here p false None (drop i (a ++ t)) = None) →
  sub_from p false 0 (a ++ t) = a ++ sub_from p false 0 t.
Proof.
  induction a as [|c a IH]; intros H; [done|].
  change ((c :: a) ++ t) with (c :: (a ++ t)).
  rewrite sub_from_unmatched by (apply (H 0%nat); simpl; lia).
  simpl. f_equal. apply IH. intros i Hi. apply (H (S i)). simpl. lia.
Qed.

Lemma think_bol_irrelevant b s :
  sub_from think_pattern b 0 s = sub_from think_pattern false 0 s.
Proof. destruct s as [|c s]; [done|]. cbn [sub_from]. by rewrite !think_match. Qed.

(** The pattern of [clean_think_blocks] never matches the empty text. *)
Lemma think_match_consumes b s m :
  match_here think_pattern b None s = Some m →
  (length (m_rest m) + length think_open + length think_close ≤ length s)%nat.
Proof.
  rewrite think_match. destruct (startswith think_open s) eqn:E; [|done].
  destruct (partition think_close _) as [[x y]|] eqn:P; [|done].
  intros [= <-]. simpl m_rest. apply partition_inv in P.
  apply startswith_drop in E. rewrite E, P. rewrite !length_app. lia.
Qed.

End matcher.

(** ** [clean_think_blocks] *)

Section think_blocks.

Implicit Types s text : list N.

Lemma think_no_open s :
  partition think_open s = None → sub_from think_pattern false 0 s = s.
Proof.
  intros H. apply sub_from_no_match. intros i.
  by rewrite think_match, (partition_None _ _ i H).
Qed.

Lemma think_no_close s before rest :
  partition think_open s = Some (before, rest) →
  partition think_close rest = None →
  sub_from think_pattern false 0 s = s.
Proof.
  intros Ho Hc. apply sub_from_no_match. intros i. rewrite think_match.
  destruct (startswith think_open (drop i s)) eqn:E; [|done].
  pose proof (partition_first _ _ _ _ _ Ho E) as Hi.
  apply partition_inv in Ho. rewrite drop_drop.
  replace (drop (i + length think_open) s)
    with (drop (i - length before) rest).
  - by rewrite partition_None_drop.
  - remember (i - length before)%nat as k eqn:Hk.
    assert (i = length before + k)%nat as -> by lia.
    rewrite Ho.
    rewrite <- Nat.add_assoc, <- drop_drop, drop_app_length.
    by rewrite (Nat.add_comm k), <- drop_drop, drop_app_length.
Qed.

Lemma think_cut s before rest body after :
  partition think_open s = Some (before, rest) →
  partition think_close rest = Some (body, after) →
  sub_from think_pattern false 0 s = before ++ sub_from think_pattern false 0 after.
Proof.
  intros Ho Hc.
  pose proof (partition_inv _ _ _ _ Ho) as Hs.
  pose proof (partition_inv _ _ _ _ Hc) as Hr.
  rewrite Hs at 1. rewrite sub_from_prefix.
  - f_equal.
    assert (match_here think_pattern false None (think_open ++ rest)
            = Some (match_rest (body, after))) as Hm.
    { by rewrite think_match, startswith_app, drop_app_length, Hc. }
    rewrite (sub_from_matched _ _ _ _ Hm).
    + f_equal. simpl m_rest. rewrite Hr.
      replace (think_open ++ body ++ think_close ++ after)
        with ((think_open ++ body ++ think_close) ++ after)
        by (by rewrite <- !app_assoc).
      apply drop_app_length'. rewrite length_app. lia.
    + simpl m_rest. rewrite Hr, !length_app. simpl. lia.
  - intros i Hi. rewrite <- Hs, think_match.
    destruct (startswith think_open (drop i s)) eqn:E; [|done].
    pose proof (partition_first _ _ _ _ _ Ho E). lia.
Qed.

Lemma think_refines n s :
  (length s ≤ n)%nat →
  sub_from think_pattern false 0 s = remove_think_segments n s.
Proof.
  revert s. induction n as [|n IH]; intros s Hn.
  - destruct s; [done | simpl in Hn; lia].
  - simpl. destruct (partition think_open s) as [[before rest]|] eqn:Ho.
    + destruct (partition think_close rest) as [[body after]|] eqn:Hc.
      * rewrite (think_cut _ _ _ _ _ Ho Hc). f_equal. apply IH.
        apply partition_inv in Ho, Hc. rewrite Ho, Hc, !length_app in Hn.
        simpl in Hn. lia.
      * by eapply think_no_close.
    + by apply think_no_open.
Qed.

Lemma clean_think_blocks_refines text :
  clean_think_blocks text = strip_reasoning text.
Proof.
  unfold clean_think_blocks, strip_reasoning, re_sub_empty.
  by rewrite think_bol_irrelevant, (think_refines (length text)).
Qed.

Lemma clean_think_blocks_cut text before rest body after :
  partition think_open text = Some (before, rest) →
  partition think_close rest = Some (body, after) →
  clean_think_blocks text = strip (before ++ re_sub_empty think_pattern after).
Proof.
  intros Ho Hc. unfold clean_think_blocks, re_sub_empty.
  rewrite (think_bol_irrelevant true text), (think_bol_irrelevant true after).
  by rewrite (think_cut _ _ _ _ _ Ho Hc).
Qed.

Lemma clean_think_blocks_no_segment text :
  (∀ a b c, text ≠ a ++ think_open ++ b ++ think_close ++ c) →
  clean_think_blocks text = strip text.
Proof.
  intros H. unfold clean_think_blocks, re_sub_empty.
  rewrite think_bol_irrelevant. f_equal.
  destruct (partition think_open text) as [[before rest]|] eqn:Ho.
  - destruct (partition think_close rest) as [[body after]|] eqn:Hc.
    + apply partition_inv in Ho, Hc. destruct (H before body after). by rewrite Ho, Hc.
    + by eapply think_no_close.
  - by apply think_no_open.
Qed.

(** C7.  [clean_think_blocks] is the spec's [strip_reasoning]: the text from
    the first opening tag to the next closing tag is removed, what stands
    before it is kept as it is and the removal goes on in what follows; a
    text that holds no opening tag followed by a closing tag is only trimmed;
    the result is trimmed.  The tags match exactly (case matters), the
    removed part may hold newlines, and the closing tag taken is the nearest
    one. *)
Theorem clean_think_blocks_spec :
  (∀ text, clean_think_blocks text = strip_reasoning text)
  ∧ (∀ text before rest body after,
       partition think_open text = Some (before, rest) →
       partition think_close rest = Some (body, after) →
       clean_think_blocks text = strip (before ++ re_sub_empty think_pattern after))
  ∧ (∀ text,
       (∀ a b c, text ≠ a ++ think_open ++ b ++ think_close ++ c) →
       clean_think_blocks text = strip text)
  ∧ clean_think_blocks (py "a<think>b</think>c") = py "ac"
  ∧ clean_think_blocks (py " x<think>1" ++ [10] ++ py "2</think>y</think> ")
    = py "xy</think>"
  ∧ clean_think_blocks (py "<THINK>b</THINK> <think>c") = py "<THINK>b</THINK> <think>c".
Proof.
  split; [exact clean_think_blocks_refines|].
  split; [exact clean_think_blocks_cut|].
  split; [exact clean_think_blocks_no_segment|].
  repeat split; vm_compute; reflexivity.
Qed.

Lemma clean_think_blocks_spec_witness :
  clean_think_blocks (py " x<think>1</think> y<think>2</think>z ")
  = strip (py " x" ++ re_sub_empty think_pattern (py " y<think>2</think>z ")).
Proof.
  apply (proj1 (proj2 clean_think_blocks_spec)
           (py " x<think>1</think> y<think>2</think>z ") (py " x")
           (py "1</think> y<think>2</think>z ") (py "1")
           (py " y<think>2</think>z "));
    vm_compute; reflexivity.
Defined.

End think_blocks.

(** ** [extract_assistant_response] *)

Section assistant_reply.

Implicit Types s t w text : list N.
Implicit Types p : list item.

Lemma lstrip_suffix s : ∃ a, s = a ++ lstrip s.
Proof.
  induction s as [|c s [a IH]]; [by exists []|]. simpl.
  destruct (is_space c); [|by exists []].
  exists (c :: a). simpl. by f_equal.
Qed.

Lemma drop_to_suffix s a r :
  s = a ++ r → drop (length s - length r) s = r.
Proof.
  intros ->. apply drop_app_length'. rewrite length_app. lia.
Qed.

(** A greedy [\s*] before a literal that does not begin with whitespace
    takes all the whitespace there is. *)
Lemma greedy_space_lit x w p b gs s :
  is_space x = false →
  match_here (RStar true CSpace :: lit (x :: w) ++ p) b gs s
  = match_here (lit (x :: w) ++ p) b gs (lstrip s).
Proof.
  intros Hx. revert b. induction s as [|c s IH]; intros b; [done|].
  rewrite greedy_unfold. simpl class_ok. simpl lstrip.
  destruct (is_space c) eqn:Hc; [|done].
  rewrite IH.
  assert (match_here (lit (x :: w) ++ p) b gs (c :: s) = None) as ->.
  { rewrite match_here_lit. simpl.
    destruct (x =? c) eqn:E; [|done].
    apply N.eqb_eq in E. congruence. }
  rewrite !match_here_lit. destruct (startswith _ _); [|done].
  by destruct (match_here p false gs _).
Qed.

(** A greedy [\s*] before what always matches takes all the whitespace. *)
Lemma greedy_space_total p gs (f : list N → re_match) b s :
  (∀ b' t, match_here p b' gs t = Some (f t)) →
  match_here (RStar true CSpace :: p) b gs s = Some (f (lstrip s)).
Proof.
  intros Hp. revert b. induction s as [|c s IH]; intros b.
  - rewrite greedy_unfold. apply Hp.
  - rewrite greedy_unfold. simpl class_ok. simpl lstrip.
    destruct (is_space c); [by rewrite IH | apply Hp].
Qed.

Lemma greedy_dot_close g b t :
  match_here [RStar true CDot; RGroupClose] b (Some g) t
  = Some {| m_rest := []; m_group := Some g |}.
Proof.
  revert b. induction t as [|c t IH]; intros b.
  - simpl. by rewrite Nat.sub_0_r, firstn_all.
  - rewrite greedy_unfold. simpl class_ok. cbv iota. by rewrite IH.
Qed.

Lemma marker_match c t :
  match_here marker_pattern true None (c :: t) =
    if (c =? brain) && startswith response_word (lstrip t)
    then Some (marker_rest (drop (length response_word) (lstrip t)))
    else None.
Proof.
  change marker_pattern with
    (RBol :: RClass (CChar brain) :: RStar true CSpace
       :: lit response_word ++ [RStar true CSpace]).
  rewrite match_here_bol, match_here_class.
  change (class_ok (CChar brain) c) with (brain =? c). rewrite N.eqb_sym.
  destruct (c =? brain); [|done]. cbn [andb].
  change response_word with (82 :: drop 1 response_word) at 1.
  rewrite greedy_space_lit by done.
  change (82 :: drop 1 response_word) with response_word.
  rewrite match_here_lit.
  destruct (startswith response_word (lstrip t)); [|done].
  exact (greedy_space_total [] None (fun u => {| m_rest := u; m_group := None |})
           _ _ (fun _ _ => eq_refl)).
Qed.

Lemma marker_not_bol s : match_here marker_pattern false None s = None.
Proof. done. Qed.

(** The marker pattern never matches the empty text. *)
Lemma marker_match_consumes b s m :
  match_here marker_pattern b None s = Some m →
  (length (m_rest m) < length s)%nat.
Proof.
  destruct b; [|by rewrite marker_not_bol].
  destruct s as [|c t]; [done|]. rewrite marker_match.
  destruct (_ && _); [|done]. intros [= <-].
  unfold marker_rest. cbn [m_rest]. simpl (length (c :: t)).
  pose proof (lstrip_length (drop (length response_word) (lstrip t))) as H1.
  pose proof (lstrip_length t) as H2.
  rewrite length_drop in H1. change (length response_word) with 9%nat in H1. lia.
Qed.

Lemma re_sub_marker s : re_sub_empty marker_pattern s = remove_marker s.
Proof.
  unfold re_sub_empty. destruct s as [|c t]; [done|].
  unfold remove_marker.
  destruct (match_here marker_pattern true None (c :: t)) as [m|] eqn:Hm.
  - pose proof (marker_match_consumes _ _ _ Hm) as Hlen.
    rewrite (sub_from_matched _ _ _ _ Hm Hlen).
    rewrite sub_from_no_match by (intros; apply marker_not_bol).
    rewrite marker_match in Hm.
    destruct (_ && _) eqn:E; [|done]. injection Hm as <-.
    apply andb_true_iff in E as [_ E]. apply startswith_drop in E.
    destruct (lstrip_suffix t) as [a1 H1].
    destruct (lstrip_suffix (drop (length response_word) (lstrip t))) as [a2 H2].
    unfold marker_rest. cbn [m_rest].
    apply drop_to_suffix with (a := c :: a1 ++ response_word ++ a2).
    rewrite <- !app_comm_cons. f_equal.
    rewrite <- !app_assoc, <- H2, <- E. exact H1.
  - rewrite sub_from_unmatched by done.
    rewrite sub_from_no_match by (intros; apply marker_not_bol).
    rewrite marker_match in Hm. by destruct (_ && _).
Qed.

Lemma assistant_match b s :
  match_here assistant_pattern b None s =
    if startswith assistant_delim s
    then Some (reply_of ([], drop (length assistant_delim) s))
    else None.
Proof.
  unfold assistant_pattern. rewrite match_here_lit.
  destruct (startswith assistant_delim s); [|done].
  apply (greedy_space_total _ None (fun u => {| m_rest := []; m_group := Some u |})).
  intros b' t. apply (greedy_dot_close t b' t).
Qed.

Lemma assistant_search b s :
  search_from assistant_pattern b s = reply_of <$> partition assistant_delim s.
Proof.
  revert b. induction s as [|c s IH]; intros b.
  - by cbn [search_from]; rewrite assistant_match.
  - cbn [search_from]. rewrite assistant_match, partition_unfold.
    destruct (startswith assistant_delim (c :: s)); [done|].
    rewrite IH. by destruct (partition assistant_delim s) as [[??]|].
Qed.

Lemma extract_assistant_response_refines text :
  extract_assistant_response text = extract_reply text.
Proof.
  unfold extract_assistant_response, extract_reply, re_search.
  rewrite re_sub_marker, assistant_search.
  destruct (partition assistant_delim _) as [[a b]|]; [|done].
  simpl. apply strip_lstrip.
Qed.

Lemma lstrip_spaces_suffix s :
  ∃ a, Forall (fun c => is_space c = true) a ∧ s = a ++ lstrip s.
Proof.
  induction s as [|c s (a & Ha & IH)]; [by exists []|]. simpl.
  destruct (is_space c) eqn:Hc; [|by exists []].
  exists (c :: a). split; [by constructor|]. simpl. by f_equal.
Qed.

Lemma lstrip_spaces ws s :
  Forall (fun c => is_space c = true) ws → lstrip (ws ++ s) = lstrip s.
Proof. induction 1 as [|c ws Hc _ IH]; simpl; [done|]. by rewrite Hc. Qed.

Lemma remove_marker_present ws1 ws2 rest :
  Forall (fun c => is_space c = true) ws1 →
  Forall (fun c => is_space c = true) ws2 →
  lstrip rest = rest →
  remove_marker (brain :: ws1 ++ response_word ++ ws2 ++ rest) = rest.
Proof.
  intros H1 H2 Hr. unfold remove_marker.
  rewrite N.eqb_refl, (lstrip_spaces _ _ H1).
  change (lstrip (response_word ++ ws2 ++ rest)) with (response_word ++ ws2 ++ rest).
  rewrite startswith_app, drop_app_length. cbn [andb].
  by rewrite (lstrip_spaces _ _ H2).
Qed.

Lemma remove_marker_absent text :
  (∀ ws t, Forall (fun c => is_space c = true) ws →
           text ≠ brain :: ws ++ response_word ++ t) →
  remove_marker text = text.
Proof.
  intros H. destruct text as [|c t]; [done|]. unfold remove_marker.
  destruct ((c =? brain) && startswith response_word (lstrip t)) eqn:E; [|done].
  apply andb_true_iff in E as [->%N.eqb_eq E]. apply startswith_drop in E.
  destruct (lstrip_spaces_suffix t) as (a & Ha & Ht).
  destruct (H a (drop (length response_word) (lstrip t)) Ha).
  f_equal. by rewrite <- E.
Qed.

(** C8.  [extract_assistant_response] is the spec's [extract_reply]: the
    text is trimmed and the marker (the brain emoji, the word Response with
    its colon, and the whitespace around them) is removed when the text
    begins with it; then, if the delimiter Assistant: occurs, the answer is
    what follows its first occurrence, trimmed, and otherwise the
    marker-free text, trimmed. *)
Theorem extract_assistant_response_spec :
  (∀ text, extract_assistant_response text = extract_reply text)
  ∧ (∀ text before after,
       partition assistant_delim (remove_marker (strip text)) = Some (before, after) →
       extract_assistant_response text = strip after)
  ∧ (∀ text,
       partition assistant_delim (remove_marker (strip text)) = None →
       extract_assistant_response text = strip (remove_marker (strip text)))
  ∧ (∀ ws1 ws2 rest,
       Forall (fun c => is_space c = true) ws1 →
       Forall (fun c => is_space c = true) ws2 →
       lstrip rest = rest →
       remove_marker (brain :: ws1 ++ response_word ++ ws2 ++ rest) = rest)
  ∧ (∀ text,
       (∀ ws t, Forall (fun c => is_space c = true) ws →
                text ≠ brain :: ws ++ response_word ++ t) →
       remove_marker text = text)
  ∧ extract_assistant_response (py "🧠 Response: User: ... Assistant: Yes.") = py "Yes."
  ∧ extract_assistant_response (py "  🧠 Response:  no delimiter here ")
    = py "no delimiter here"
  ∧ extract_assistant_response (py "assistant: a Assistant: b Assistant: c ")
    = py "b Assistant: c".
Proof.
  split; [exact extract_assistant_response_refines|].
  split.
  { intros text before after H.
    by rewrite extract_assistant_response_refines; unfold extract_reply; rewrite H. }
  split.
  { intros text H.
    by rewrite extract_assistant_response_refines; unfold extract_reply; rewrite H. }
  split; [exact remove_marker_present|].
  split; [exact remove_marker_absent|].
  repeat split; vm_compute; reflexivity.
Qed.

Lemma extract_assistant_response_spec_witness :
  extract_assistant_response (py " 🧠 Response: User: hi Assistant:  Yes, a graph. ")
  = strip (py "  Yes, a graph.").
Proof.
  apply (proj1 (proj2 extract_assistant_response_spec)
           (py " 🧠 Response: User: hi Assistant:  Yes, a graph. ")
           (py "User: hi ") (py "  Yes, a graph."));
    vm_compute; reflexivity.
Defined.

End assistant_reply.

(** ** The JSON decoder: its recursion budget is never the reason it fails *)

Section json_budget.

Implicit Types s r : list N.

Lemma skip_ws_length s : (length (skip_ws s) ≤ length s)%nat.
Proof. induction s as [|c s IH]; simpl; [done|]. destruct (is_ws c); simpl; lia. Qed.

Lemma span_digits_length s d r :
  span_digits s = (d, r) → length s = (length d + length r)%nat.
Proof.
  revert d r. induction s as [|c s IH]; intros d r; simpl.
  - by intros [= <- <-].
  - destruct (is_digit c).
    + destruct (span_digits s) as [d' r'] eqn:E. intros [= <- <-].
      simpl. f_equal. by apply IH.
    + by intros [= <- <-].
Qed.

Lemma scanstring_shorter n s t r :
  (length s ≤ n)%nat → scanstring s = Some (t, r) → (length r < length s)%nat.
Proof.
  revert s t r. induction n as [|n IH]; intros s t r Hn.
  { destruct s; [done | simpl in Hn; lia]. }
  assert (∀ s' t' r', (length s' ≤ n)%nat → scanstring s' = Some (t', r') →
                      (length r' < length s')%nat) as IH'.
  { intros s' t' r' Hs' H'. by eapply IH. }
  clear IH. destruct s as [|c s]; [done|]. simpl in Hn.
  cbn [scanstring].
  repeat first
    [ progress simplify_eq
    | match goal with
      | |- context [match ?x with _ => _ end] =>
          lazymatch x with
          | scanstring _ => destruct x as [[??]|] eqn:?
          | hex4 _ _ _ _ => destruct x eqn:?
          | simple_escape _ => destruct x eqn:?
          | _ =? _ => destruct x eqn:?
          | _ <? _ => destruct x eqn:?
          | _ && _ => destruct x eqn:?
          | is_high_surrogate _ => destruct x eqn:?
          | is_low_surrogate _ => destruct x eqn:?
          | _ => is_var x; destruct x
          end
      end ];
  try done;
  intros;
  repeat match goal with
         | H : scanstring ?u = Some (_, _) |- _ =>
             apply IH' in H; [|simpl in Hn |- *; lia]
         end;
  simplify_eq; simpl in *; lia.
Qed.

Lemma parse_number_shorter s v r :
  parse_number s = Some (v, r) → (length r < length s)%nat.
Proof.
  unfold parse_number. intros H.
  repeat match type of H with
         | context [match ?x with _ => _ end] => destruct x eqn:?; simplify_eq
         end;
  repeat match goal with
         | E : context [match ?x with _ => _ end] |- _ => destruct x eqn:?; simplify_eq
         end;
  repeat match goal with
         | E : span_digits (?c :: ?u) = _, D : is_digit ?c = true |- _ =>
             simpl in E; rewrite D in E; destruct (span_digits u) eqn:?; simplify_eq
         end;
  repeat match goal with
         | E : span_digits _ = (_, _) |- _ => apply span_digits_length in E
         end;
  simpl in *; lia.
Qed.

Ltac budget_done :=
  split; [done|]; intros; simplify_eq;
  rewrite ?length_drop; simpl in *; lia.

Ltac budget_ws u :=
  try match u with skip_ws ?w => pose proof (skip_ws_length w) end.

Ltac budget_call IH x u :=
  let Hnf := fresh "Hnf" in
  let Hsh := fresh "Hsh" in
  let E := fresh "E" in
  budget_ws u;
  destruct (IH u) as [Hnf Hsh]; [simpl in *; lia|];
  destruct x as [[? ?]| |] eqn:E;
  [ first [apply Hsh in E | specialize (Hsh _ _ eq_refl)]
  |
  | first [by destruct Hnf | by rewrite E in Hnf] ].

Ltac budget_step IHv IHm IHe :=
  match goal with
  | |- context [match ?x with _ => _ end] =>
      lazymatch x with
      | parse_value _ ?u => budget_call IHv x u
      | parse_members _ ?u ?a => budget_call (fun s => IHm s a) x u
      | parse_elements _ ?u ?a => budget_call (fun s => IHe s a) x u
      | skip_ws ?u =>
          let L := fresh "L" in
          let E := fresh "E" in
          pose proof (skip_ws_length u) as L; destruct x eqn:E; try rewrite E in L
      | scanstring ?u =>
          let E := fresh "E" in
          destruct x as [[? ?]|] eqn:E;
          [apply (scanstring_shorter _ _ _ _ (le_n _)) in E|]
      | parse_number ?u =>
          let E := fresh "E" in
          destruct x as [[? ?]|] eqn:E; [apply parse_number_shorter in E|]
      | _ => destruct x eqn:?
      end
  | |- parse_members _ ?u ?a ≠ _ ∧ _ =>
      let Hnf := fresh "Hnf" in
      let Hsh := fresh "Hsh" in
      let E := fresh "E" in
      budget_ws u;
      destruct (IHm u a) as [Hnf Hsh]; [simpl in *; lia|];
      split; [done|]; intros ? ? E; apply Hsh in E; simpl in *; lia
  | |- parse_elements _ ?u ?a ≠ _ ∧ _ =>
      let Hnf := fresh "Hnf" in
      let Hsh := fresh "Hsh" in
      let E := fresh "E" in
      budget_ws u;
      destruct (IHe u a) as [Hnf Hsh]; [simpl in *; lia|];
      split; [done|]; intros ? ? E; apply Hsh in E; simpl in *; lia
  end.

(** With a budget above twice the length of the text, no call of the
    descent runs out of it, and a value read leaves a shorter text. *)
Lemma parse_budget f :
  (∀ s, (2 * length s < f)%nat →
        parse_value f s ≠ PFuel
        ∧ ∀ v r, parse_value f s = POk (v, r) → (length r < length s)%nat)
  ∧ (∀ s acc, (2 * length s < f)%nat →
        parse_members f s acc ≠ PFuel
        ∧ ∀ v r, parse_members f s acc = POk (v, r) → (length r < length s)%nat)
  ∧ (∀ s acc, (2 * length s + 1 < f)%nat →
        parse_elements f s acc ≠ PFuel
        ∧ ∀ v r, parse_elements f s acc = POk (v, r) → (length r < length s)%nat).
Proof.
  induction f as [|f (IHv & IHm & IHe)]; [repeat split; intros; lia|].
  split; [|split].
  - intros s Hs. cbn [parse_value]. destruct s as [|c r]; [done|].
    repeat budget_step IHv IHm IHe; try budget_done.
  - intros s acc Hs. cbn [parse_members].
    repeat budget_step IHv IHm IHe; try budget_done.
  - intros s acc Hs. cbn [parse_elements].
    repeat budget_step IHv IHm IHe; try budget_done.
Qed.

Lemma json_loads_budget s : parse_value (S (2 * length s)) (skip_ws s) ≠ PFuel.
Proof.
  apply parse_budget. pose proof (skip_ws_length s). lia.
Qed.

End json_budget.

(** ** The session store *)

Section session_store.

Import MemoryManager.

Implicit Types m : MemoryManager.t.
Implicit Types u s : list N.

Lemma t_eq m1 m2 :
  memory_store m1 = memory_store m2 → persist m1 = persist m2 →
  dumped m1 = dumped m2 → m1 = m2.
Proof. destruct m1, m2. simpl. intros. by subst. Qed.

Lemma save_if_persist_store m : memory_store (save_if_persist m) = memory_store m.
Proof. unfold save_if_persist. by destruct (persist m). Qed.

Lemma save_if_persist_persist m : persist (save_if_persist m) = persist m.
Proof. unfold save_if_persist. by destruct (persist m) eqn:E. Qed.

Lemma add_chat_user_store u m :
  memory_store (add_chat_user u m)
  = <[u := default ∅ (memory_store m !! u)]> (memory_store m).
Proof.
  unfold add_chat_user. destruct (memory_store m !! u) as [ss|] eqn:E.
  - simpl. by rewrite insert_id.
  - by rewrite save_if_persist_store.
Qed.

Lemma add_chat_user_persist u m : persist (add_chat_user u m) = persist m.
Proof.
  unfold add_chat_user. destruct (memory_store m !! u); [done|].
  by rewrite save_if_persist_persist.
Qed.

Lemma add_chat_user_known u m sessions :
  memory_store m !! u = Some sessions → add_chat_user u m = m.
Proof. unfold add_chat_user. by intros ->. Qed.

Lemma get_history_lookup u s m :
  get_history u s m = default [] (memory_store m !! u ≫= (.!! s)).
Proof. unfold get_history. by destruct (memory_store m !! u). Qed.

(** [add_chat_session] returns, and the store it leaves is the old one with
    the session present: an absent session is created empty, a present one
    keeps its turns. *)
Lemma add_chat_session_store u s m :
  ∃ m', add_chat_session u s m = Ok m'
        ∧ memory_store m'
          = <[u := <[s := get_history u s m]> (default ∅ (memory_store m !! u))]>
              (memory_store m)
        ∧ persist m' = persist m.
Proof.
  unfold add_chat_session.
  pose proof (add_chat_user_store u m) as Hst.
  pose proof (add_chat_user_persist u m) as Hp.
  set (m1 := add_chat_user u m) in *.
  assert (memory_store m1 !! u = Some (default ∅ (memory_store m !! u))) as Hu.
  { rewrite Hst. apply lookup_insert_eq. }
  rewrite Hu. simpl.
  unfold get_history.
  destruct (default ∅ (memory_store m !! u) !! s) as [h|] eqn:Hs.
  - exists m1. split; [done|]. split; [|done].
    simpl. rewrite (insert_id _ s h) by done. exact Hst.
  - eexists. split; [done|]. rewrite save_if_persist_store, save_if_persist_persist.
    simpl. split; [|done]. rewrite Hst. by rewrite insert_insert_eq.
Qed.

Lemma add_chat_session_present u s m :
  has_session u s m → add_chat_session u s m = Ok m.
Proof.
  intros (ss & h & Hu & Hs). unfold add_chat_session.
  rewrite (add_chat_user_known _ _ _ Hu), Hu. simpl. by rewrite Hs.
Qed.

Lemma add_chat_session_has u s m m' :
  add_chat_session u s m = Ok m' → has_session u s m'.
Proof.
  destruct (add_chat_session_store u s m) as (m1 & H1 & Hst & _).
  rewrite H1. intros [= <-]. unfold has_session. rewrite Hst.
  eexists _, _. split; [apply lookup_insert_eq|apply lookup_insert_eq].
Qed.

Lemma add_chat_session_history u s m m' u' s' :
  add_chat_session u s m = Ok m' → get_history u' s' m' = get_history u' s' m.
Proof.
  destruct (add_chat_session_store u s m) as (m1 & H1 & Hst & _).
  rewrite H1. intros [= <-]. rewrite !get_history_lookup, Hst.
  destruct (decide (u' = u)) as [->|Hu].
  - rewrite lookup_insert_eq. simpl.
    destruct (decide (s' = s)) as [->|Hs].
    + rewrite lookup_insert_eq. simpl. by rewrite get_history_lookup.
    + rewrite lookup_insert_ne by done. by destruct (memory_store m !! u).
  - by rewrite lookup_insert_ne.
Qed.

(** [add_message] returns, and appends one turn to the session; every other
    session keeps its turns. *)
Lemma add_message_history u s r c m :
  ∃ m', add_message u s r c m = Ok m'
        ∧ get_history u s m' = get_history u s m ++ [{| role := r; content := c |}]
        ∧ (∀ u' s', (u', s') ≠ (u, s) → get_history u' s' m' = get_history u' s' m)
        ∧ persist m' = persist m.
Proof.
  unfold add_message.
  destruct (add_chat_session_store u s m) as (m1 & H1 & Hst & Hp).
  rewrite H1. simpl.
  assert (memory_store m1 !! u
          = Some (<[s := get_history u s m]> (default ∅ (memory_store m !! u)))) as Hu.
  { rewrite Hst. apply lookup_insert_eq. }
  rewrite Hu. simpl. rewrite lookup_insert_eq. simpl.
  eexists. split; [done|].
  rewrite save_if_persist_persist. simpl.
  split; [|split; [|done]].
  - rewrite get_history_lookup, save_if_persist_store. simpl.
    rewrite lookup_insert_eq. simpl. by rewrite lookup_insert_eq.
  - intros u' s' Hne.
    rewrite !get_history_lookup, save_if_persist_store. simpl.
    destruct (decide (u' = u)) as [->|Hu'].
    + rewrite lookup_insert_eq. simpl.
      assert (s' ≠ s) as Hs by congruence.
      rewrite !lookup_insert_ne by done.
      by destruct (memory_store m !! u).
    + rewrite lookup_insert_ne by done. rewrite Hst.
      by rewrite lookup_insert_ne.
Qed.

(** C6.  [add_chat_session] is idempotent: it returns a store, a second call
    on that store changes nothing, no session loses or gains a turn by it,
    the store it leaves holds the session with the turns it had (none for a
    new one), and where the session exists already the whole object,
    snapshots written to disk included, is left as it was. *)
Theorem add_chat_session_idempotent :
  ∀ (u s : list N) (m : MemoryManager.t),
    ∃ m', add_chat_session u s m = Ok m'
          ∧ add_chat_session u s m' = Ok m'
          ∧ (∀ u' s', get_history u' s' m' = get_history u' s' m)
          ∧ memory_store m'
            = <[u := <[s := get_history u s m]> (default ∅ (memory_store m !! u))]>
                (memory_store m)
          ∧ (has_session u s m → m' = m).
Proof.
  intros u s m.
  destruct (add_chat_session_store u s m) as (m' & H & Hst & Hp).
  exists m'. split; [done|]. split; [|split; [|split; [done|]]].
  - apply add_chat_session_present. by eapply add_chat_session_has.
  - intros u' s'. by eapply add_chat_session_history.
  - intros Hs. rewrite (add_chat_session_present _ _ _ Hs) in H. congruence.
Qed.

Lemma add_chat_session_idempotent_witness :
  ∃ m', add_chat_session (py "user1") (py "Session 1") two_turns = Ok m'
        ∧ add_chat_session (py "user1") (py "Session 1") m' = Ok m'
        ∧ (∀ u' s', get_history u' s' m' = get_history u' s' two_turns)
        ∧ memory_store m'
          = <[py "user1" :=
                <[py "Session 1" := get_history (py "user1") (py "Session 1") two_turns]>
                  (default ∅ (memory_store two_turns !! py "user1"))]>
              (memory_store two_turns)
        ∧ (has_session (py "user1") (py "Session 1") two_turns → m' = two_turns).
Proof. exact (add_chat_session_idempotent (py "user1") (py "Session 1") two_turns). Defined.

End session_store.

(** ** The window of [get_context] *)

Section context_window.

Import MemoryManager.

Implicit Types m : MemoryManager.t.
Implicit Types u s : list N.

Lemma slice_from_neg {A} (k : Z) (l : list A) :
  (0 < k)%Z → slice_from (- k) l = last_n (Z.to_nat k `min` length l) l.
Proof.
  intros Hk. unfold slice_from, last_n.
  destruct (- k <? 0)%Z eqn:E; [|lia]. f_equal. lia.
Qed.

Lemma slice_from_zero {A} (l : list A) : slice_from (- 0) l = l.
Proof. unfold slice_from. simpl. by destruct l. Qed.

Lemma join_nil_map (f : turn → list N) : join [10] (map f []) = [].
Proof. done. Qed.

(** For a window of at least one turn [get_context] gives the most recent
    window-many turns (all of them when there are fewer), oldest first, one
    line each. *)
Lemma get_context_window u s (k : Z) m :
  (0 < k)%Z →
  get_context u s (Some k) m
  = join [10] (map format_turn
                 (last_n (Z.to_nat k `min` length (get_history u s m))
                    (get_history u s m))).
Proof.
  intros Hk. unfold get_context.
  destruct (get_history u s m) as [|x h] eqn:E.
  - by rewrite Nat.min_0_r.
  - by rewrite slice_from_neg.
Qed.

(** Without a window, and with the window 0, it gives every turn. *)
Lemma get_context_all u s m :
  get_context u s None m = join [10] (map format_turn (get_history u s m))
  ∧ get_context u s (Some 0%Z) m = join [10] (map format_turn (get_history u s m)).
Proof.
  unfold get_context. destruct (get_history u s m) as [|x h]; [done|].
  by rewrite slice_from_zero.
Qed.

Lemma get_context_absent u s k m :
  get_history u s m = [] → get_context u s k m = [].
Proof. unfold get_context. by intros ->. Qed.

End context_window.

(** ** Routing *)

Section routing.

Implicit Types msg : list N.
Implicit Types t a : json.

Lemma first_branch_unfold t a :
  first_branch t a =
    if eq_str t (py "video_analysis") || eq_str a (py "video_analyst")
    then video_analyst
    else if eq_str t (py "transcript_analysis") || eq_str a (py "transcript_analyst")
    then transcript_analyst
    else if eq_str t (py "report_generation") || eq_str a (py "report_analyst")
    then report_analyst
    else end_.
Proof.
  unfold first_branch, branches. cbn [find]. unfold branch_matches. cbn [fst snd].
  repeat (destruct (_ || _); [done|]). done.
Qed.

Lemma route_decision_policy msg :
  try_except (route_decision msg) end_ = routing_policy msg.
Proof.
  unfold route_decision, routing_policy.
  destruct (json_loads msg) as [j|e]; [|done]. simpl.
  destruct j as [| | | | | | | |d]; simpl; try by repeat case_match.
  destruct d as [|kv d]; [done|]. cbn [truthy].
  destruct (dict_get (py "Task_name") (kv :: d)) as [t|]; [|done].
  destruct (dict_get (py "agent_name") (kv :: d)) as [a|]; [|done].
  cbn [mbind result_bind try_except]. rewrite first_branch_unfold.
  by repeat (destruct (_ || _); [done|]).
Qed.

Lemma orchestrator_route_eq state msg :
  orchestrator_msg state = Some msg →
  orchestrator_route state = Ok (routing_policy msg).
Proof.
  intros H. unfold orchestrator_route. rewrite H. simpl.
  by rewrite route_decision_policy.
Qed.

Lemma eq_str_true v s : eq_str v s = true ↔ v = JString s.
Proof.
  destruct v; simpl; try (split; [done | intros [=]]).
  rewrite bool_decide_eq_true. split; [by intros -> | by intros [= ->]].
Qed.

End routing.

Section routing_claims.

Implicit Types msg : list N.
Implicit Types t a : json.

(** C10.  When the two fields of the classifier's object name different
    handlers, the branches are tried in the fixed order video, transcript,
    report and the first one that either field matches wins: a video match
    in one field beats whatever the other field names, a transcript match
    beats a report match. *)
Theorem orchestrator_route_conflict_order :
  (∀ state msg d t a,
     orchestrator_msg state = Some msg →
     json_loads msg = Ok (JObject d) →
     dict_get (py "Task_name") d = Some t →
     dict_get (py "agent_name") d = Some a →
     let video := t = JString (py "video_analysis") ∨ a = JString (py "video_analyst") in
     let transcript :=
       t = JString (py "transcript_analysis") ∨ a = JString (py "transcript_analyst") in
     let report :=
       t = JString (py "report_generation") ∨ a = JString (py "report_analyst") in
     (video → orchestrator_route state = Ok video_analyst)
     ∧ (¬ video → transcript → orchestrator_route state = Ok transcript_analyst)
     ∧ (¬ video → ¬ transcript → report → orchestrator_route state = Ok report_analyst))
  ∧ orchestrator_route
      (state_of_msg (classifier_reply "transcript_analysis" "video_analyst"))
    = Ok video_analyst
  ∧ orchestrator_route
      (state_of_msg (classifier_reply "report_generation" "video_analyst"))
    = Ok video_analyst
  ∧ orchestrator_route
      (state_of_msg (classifier_reply "report_generation" "transcript_analyst"))
    = Ok transcript_analyst
  ∧ orchestrator_route
      (state_of_msg (classifier_reply "transcript_analysis" "report_analyst"))
    = Ok transcript_analyst.
Proof.
  split; [|repeat split; vm_compute; reflexivity].
  intros state msg d t a Hmsg Hd Ht Ha video transcript report.
  rewrite (orchestrator_route_eq _ _ Hmsg). unfold routing_policy.
  rewrite Hd, Ht, Ha, first_branch_unfold.
  subst video transcript report. rewrite <- !eq_str_true.
  repeat split.
  - intros H. apply orb_true_iff in H. by rewrite H.
  - intros Hv H. apply orb_true_iff in H. rewrite H.
    rewrite <- orb_true_iff in Hv. by destruct (_ || _).
  - intros Hv Hx H. apply orb_true_iff in H. rewrite H.
    rewrite <- orb_true_iff in Hv, Hx. by repeat (destruct (_ || _); [done|]).
Qed.

Lemma orchestrator_route_conflict_order_witness :
  orchestrator_route
    (state_of_msg (classifier_reply "transcript_analysis" "video_analyst"))
  = Ok video_analyst.
Proof.
  refine (proj1 (proj1 orchestrator_route_conflict_order
                   (state_of_msg (classifier_reply "transcript_analysis" "video_analyst"))
                   (classifier_reply "transcript_analysis" "video_analyst")
                   [(py "Task_name", JString (py "transcript_analysis"));
                    (py "agent_name", JString (py "video_analyst"))]
                   (JString (py "transcript_analysis")) (JString (py "video_analyst"))
                   _ _ _ _) _);
    [reflexivity | vm_compute; reflexivity | reflexivity | reflexivity
    | right; reflexivity].
Defined.

Lemma routing_policy_object msg d t a :
  json_loads msg = Ok (JObject d) →
  dict_get (py "Task_name") d = Some t →
  dict_get (py "agent_name") d = Some a →
  routing_policy msg = first_branch t a.
Proof. unfold routing_policy. by intros -> -> ->. Qed.

Lemma routing_policy_other msg :
  (∀ d, json_loads msg = Ok (JObject d) →
        dict_get (py "Task_name") d = None ∨ dict_get (py "agent_name") d = None) →
  routing_policy msg = end_.
Proof.
  unfold routing_policy. intros H.
  destruct (json_loads msg) as [[| | | | | | | |d]|e]; try done.
  destruct (H d eq_refl) as [-> | ->]; [done|]. by destruct (dict_get _ d).
Qed.

Lemma first_branch_end t a :
  first_branch t a = end_ ↔
  ∀ b, b ∈ branches → t ≠ JString b.2.1 ∧ a ≠ JString b.2.2.
Proof.
  rewrite first_branch_unfold. unfold branches.
  setoid_rewrite <- eq_str_true. split.
  - intros H b Hb.
    repeat (apply elem_of_cons in Hb as [->|Hb]); [..|by apply elem_of_nil in Hb];
      cbn [fst snd];
      repeat (destruct (_ || _) eqn:? in H; [done|]);
      repeat match goal with
             | E : _ || _ = false |- _ => apply orb_false_iff in E as [? ?]
             end; split; congruence.
  - intros H.
    destruct (H (video_analyst, (py "video_analysis", py "video_analyst")))
      as [H1 H2]; [by constructor|].
    destruct (H (transcript_analyst, (py "transcript_analysis", py "transcript_analyst")))
      as [H3 H4]; [by do 2 constructor|].
    destruct (H (report_analyst, (py "report_generation", py "report_analyst")))
      as [H5 H6]; [by do 3 constructor|].
    cbn [fst snd] in *.
    apply not_true_is_false in H1, H2, H3, H4, H5, H6.
    by rewrite H1, H2, H3, H4, H5, H6.
Qed.

(** C1, as the code has it.  The label returned is that of the routing
    policy.  An output that parses as an object holding both fields is routed
    by the first branch, in the order video, transcript, report, that either
    field matches, and to [end_] when none matches; so an object with both
    fields present and a recognized value in only one goes to that value's
    handler.  Every other output (no JSON, JSON that is no object, an object
    that lacks one of the two fields) gives [end_], which the graph maps to
    the memory update. *)
Theorem orchestrator_route_policy :
  (∀ state msg,
     orchestrator_msg state = Some msg →
     orchestrator_route state = Ok (routing_policy msg))
  ∧ (∀ msg d t a,
       json_loads msg = Ok (JObject d) →
       dict_get (py "Task_name") d = Some t →
       dict_get (py "agent_name") d = Some a →
       routing_policy msg = first_branch t a)
  ∧ (∀ msg,
       (∀ d, json_loads msg = Ok (JObject d) →
             dict_get (py "Task_name") d = None ∨ dict_get (py "agent_name") d = None) →
       routing_policy msg = end_)
  ∧ (∀ a, first_branch (JString (py "video_analysis")) a = video_analyst)
  ∧ (∀ t, first_branch t (JString (py "video_analyst")) = video_analyst)
  ∧ (∀ a, a ≠ JString (py "video_analyst") →
          first_branch (JString (py "transcript_analysis")) a = transcript_analyst)
  ∧ (∀ t, t ≠ JString (py "video_analysis") →
          first_branch t (JString (py "transcript_analyst")) = transcript_analyst)
  ∧ (∀ a, a ≠ JString (py "video_analyst") → a ≠ JString (py "transcript_analyst") →
          first_branch (JString (py "report_generation")) a = report_analyst)
  ∧ (∀ t, t ≠ JString (py "video_analysis") → t ≠ JString (py "transcript_analysis") →
          first_branch t (JString (py "report_analyst")) = report_analyst)
  ∧ (∀ t a, first_branch t a = end_ ↔
            ∀ b, b ∈ branches → t ≠ JString b.2.1 ∧ a ≠ JString b.2.2)
  ∧ path_map end_ = update_memory_node
  ∧ orchestrator_route (state_of_msg (classifier_reply "video_analysis" "video_analyst"))
    = Ok video_analyst
  ∧ orchestrator_route
      (state_of_msg (classifier_reply "transcript_analysis" "transcript_analyst"))
    = Ok transcript_analyst
  ∧ orchestrator_route (state_of_msg (classifier_reply "report_generation" "report_analyst"))
    = Ok report_analyst
  ∧ orchestrator_route (state_of_msg (classifier_reply "video_analysis" "someone"))
    = Ok video_analyst
  ∧ orchestrator_route (state_of_msg (classifier_reply "something" "report_analyst"))
    = Ok report_analyst
  ∧ orchestrator_route (state_of_msg (classifier_reply "something" "someone")) = Ok end_
  ∧ orchestrator_route (state_of_msg mercy_message) = Ok end_
  ∧ orchestrator_route (state_of_msg (py "[1, 2]")) = Ok end_
  ∧ orchestrator_route (state_of_msg (quoted (py "video_analysis"))) = Ok end_.
Proof.
  split; [exact orchestrator_route_eq|].
  split; [exact routing_policy_object|].
  split; [exact routing_policy_other|].
  split; [intros a; by rewrite first_branch_unfold|].
  split.
  { intros t. rewrite first_branch_unfold.
    replace (eq_str (JString (py "video_analyst")) (py "video_analyst")) with true by done.
    by rewrite orb_true_r. }
  split.
  { intros a Ha. rewrite first_branch_unfold.
    destruct (eq_str a (py "video_analyst")) eqn:E; [by apply eq_str_true in E|done]. }
  split.
  { intros t Ht. rewrite first_branch_unfold.
    destruct (eq_str t (py "video_analysis")) eqn:E; [by apply eq_str_true in E|].
    replace (eq_str (JString (py "transcript_analyst")) (py "transcript_analyst"))
      with true by done.
    by rewrite orb_true_r. }
  split.
  { intros a H1 H2. rewrite first_branch_unfold.
    destruct (eq_str a (py "video_analyst")) eqn:E1; [by apply eq_str_true in E1|].
    destruct (eq_str a (py "transcript_analyst")) eqn:E2; [by apply eq_str_true in E2|].
    done. }
  split.
  { intros t H1 H2. rewrite first_branch_unfold.
    destruct (eq_str t (py "video_analysis")) eqn:E1; [by apply eq_str_true in E1|].
    destruct (eq_str t (py "transcript_analysis")) eqn:E2; [by apply eq_str_true in E2|].
    replace (eq_str (JString (py "report_analyst")) (py "report_analyst")) with true by done.
    simpl. by rewrite orb_true_r. }
  split; [exact first_branch_end|].
  repeat split; vm_compute; reflexivity.
Qed.

Lemma orchestrator_route_policy_witness :
  orchestrator_route (state_of_msg (classifier_reply "oops" "transcript_analyst"))
  = Ok (first_branch (JString (py "oops")) (JString (py "transcript_analyst"))).
Proof.
  rewrite <- (proj1 (proj2 orchestrator_route_policy)
                (classifier_reply "oops" "transcript_analyst")
                [(py "Task_name", JString (py "oops"));
                 (py "agent_name", JString (py "transcript_analyst"))]
                (JString (py "oops")) (JString (py "transcript_analyst")));
    [ apply (proj1 orchestrator_route_policy); reflexivity
    | vm_compute; reflexivity | reflexivity | reflexivity ].
Defined.

(** The claim C1 fails where a recognized value stands in one field and the
    other field is missing: the text parses as an object with a recognized
    task name (agent name), and the route is [end_]. *)
Lemma orchestrator_route_missing_field :
  json_loads (one_field_reply "Task_name" "video_analysis")
  = Ok (JObject [(py "Task_name", JString (py "video_analysis"))])
  ∧ orchestrator_route (state_of_msg (one_field_reply "Task_name" "video_analysis"))
    = Ok end_
  ∧ json_loads (one_field_reply "agent_name" "report_analyst")
    = Ok (JObject [(py "agent_name", JString (py "report_analyst"))])
  ∧ orchestrator_route (state_of_msg (one_field_reply "agent_name" "report_analyst"))
    = Ok end_.
Proof. repeat split; vm_compute; reflexivity. Qed.

End routing_claims.

(** ** The task handlers *)

Section handlers.

Implicit Types text template g : list N.

Lemma format_text_field g text :
  no_brace g = true → format_text (g ++ py "{text}") text = Ok (g ++ text).
Proof.
  induction g as [|c g IH]; intros H.
  - simpl. by rewrite app_nil_r.
  - simpl in H. apply andb_true_iff in H as [Hc Hg].
    apply andb_true_iff in Hc as [H1 H2].
    apply negb_true_iff in H1, H2.
    change ((c :: g) ++ py "{text}") with (c :: (g ++ py "{text}")).
    cbn [format_text]. rewrite H1, H2, (IH Hg). done.
Qed.

Lemma ai_responses_shape template :
  template ∈ ai_responses →
  template = template_head template ++ py "{text}"
  ∧ no_brace (template_head template) = true.
Proof.
  unfold ai_responses. intros H.
  repeat (apply elem_of_cons in H as [->|H]; [by vm_compute|]).
  by apply elem_of_nil in H.
Qed.

Lemma format_ai_response template text :
  template ∈ ai_responses →
  format_text template text = Ok (template_head template ++ text).
Proof.
  intros [H1 H2]%ai_responses_shape. rewrite H1 at 1. by apply format_text_field.
Qed.

Lemma random_choice_elem env (seq : list (list N)) :
  seq ≠ [] → ∃ x, x ∈ seq ∧ random_choice env seq = Ok x.
Proof.
  intros H. destruct seq as [|y seq]; [done|].
  eexists. split; [|done]. apply list_elem_of_In, nth_In.
  apply Nat.mod_upper_bound. done.
Qed.

(** C9.  The pool holds exactly ten templates, all different, each a
    greeting followed by the field.  When the speech-to-text call returns a
    transcript, the response is one of the templates with the transcript in
    place of the field; when it raises, the response is the apology; either
    way the handler returns. *)
Theorem transcript_agent_spec :
  length ai_responses = 10%nat
  ∧ NoDup ai_responses
  ∧ (∀ template text,
       template ∈ ai_responses →
       template = template_head template ++ py "{text}"
       ∧ format_text template text = Ok (template_head template ++ text))
  ∧ (∀ env state path text,
       video_path state = Some path →
       transcript_model env path = Ok text →
       ∃ template,
         template ∈ ai_responses
         ∧ transcript_agent env state
           = Ok (set_final_response (template_head template ++ text) state))
  ∧ (∀ env state path e,
       video_path state = Some path →
       transcript_model env path = Raise e →
       transcript_agent env state = Ok (set_final_response apology state)).
Proof.
  split; [done|].
  split; [by apply (bool_decide_unpack _); vm_compute|].
  split.
  { intros template text H. split; [by apply ai_responses_shape|].
    by apply format_ai_response. }
  split.
  - intros env state path text Hp Ht. unfold transcript_agent.
    rewrite Hp. cbn [getitem mbind result_bind]. rewrite Ht.
    destruct (random_choice_elem env ai_responses) as (template & Hin & Hc); [done|].
    exists template. split; [done|]. cbn [mbind result_bind]. rewrite Hc.
    cbn [mbind result_bind]. by rewrite (format_ai_response _ _ Hin).
  - intros env state path e Hp Ht. unfold transcript_agent.
    rewrite Hp. cbn [getitem mbind result_bind]. by rewrite Ht.
Qed.

End handlers.

(** ** The report handler *)

Section report_handler.

Implicit Types content : list N.

(** C5.  Once the second-stage model has answered, the report handler falls
    back to the apology and to the sentinel path [NA] (the value [app.py]
    reads as no artifact) whenever the answer, freed of its think blocks, is
    no JSON, or is JSON that is no object or an object without args, or the
    renderer raises. *)
Theorem report_agent_fallback :
  ∀ env state mem uid sid query content,
    memory state = Some mem →
    user_id state = Some uid →
    session_id state = Some sid →
    user_query state = Some query →
    hug_llm env (report_messages mem uid sid query) = Ok content →
    ((∃ e, json_loads (clean_think_blocks content) = Raise e)
     ∨ (∃ j, json_loads (clean_think_blocks content) = Ok j ∧ ∀ d, j ≠ JObject d)
     ∨ (∃ d, json_loads (clean_think_blocks content) = Ok (JObject d)
             ∧ dict_get (py "args") d = None)
     ∨ (∃ d args e, json_loads (clean_think_blocks content) = Ok (JObject d)
                    ∧ dict_get (py "args") d = Some args
                    ∧ generate_report env args = Raise e)) →
    report_agent env state
    = Ok (set_final_response apology (set_report_path no_report state))
    ∧ no_report = py "NA".
Proof.
  intros env state mem uid sid query content Hm Hu Hs Hq Hllm Hfail.
  split; [|done]. unfold report_agent.
  rewrite Hm, Hu, Hs, Hq. cbn [getitem mbind result_bind].
  fold (report_messages mem uid sid query). rewrite Hllm.
  cbn [mbind result_bind].
  destruct Hfail as [[e He] | [(j & Hj & Hno) | [(d & Hd & Ha) | (d & args & e & Hd & Ha & Hr)]]].
  - by rewrite He.
  - rewrite Hj. destruct j; try done. by destruct (Hno d).
  - rewrite Hd. cbn [mbind result_bind subscript]. by rewrite Ha.
  - rewrite Hd. cbn [mbind result_bind subscript]. rewrite Ha.
    cbn [mbind result_bind]. by rewrite Hr.
Qed.

Lemma report_agent_fallback_witness :
  report_agent
    (fixed_env (Ok (classifier_reply "report_generation" "report_analyst"))
       (Ok (py "<think>which format?</think>Sure, here is your report!"))
       failure failure failure 3)
    (request "Make a PDF report of the results")
  = Ok (set_final_response apology
          (set_report_path no_report (request "Make a PDF report of the results")))
  ∧ no_report = py "NA".
Proof.
  apply (report_agent_fallback _ _ empty_memory (py "user1") (py "Session 1")
           (py "Make a PDF report of the results")
           (py "<think>which format?</think>Sure, here is your report!"));
    [reflexivity | reflexivity | reflexivity | reflexivity | reflexivity|].
  left. exists JSONDecodeError. vm_compute. reflexivity.
Defined.

End report_handler.

(** ** The graph *)

Section graph.

Import MemoryManager.

Implicit Types state : GraphState.
Implicit Types env : Collaborators.

Lemma run_step env g k n state :
  run env g (S k) n state =
    match run_node env n state with
    | Raise e => ([n], Raise e)
    | Ok state' =>
        match next_node g n state' with
        | Raise e => ([n], Raise e)
        | Ok None => ([n], Ok state')
        | Ok (Some n') => let '(tr, r) := run env g k n' state' in (n :: tr, r)
        end
    end.
Proof. done. Qed.

Lemma next_node_orchestrator state :
  next_node build_graph orchestrator_node state
  = (r ← orchestrator_route state; Ok (Some (path_map r))).
Proof. done. Qed.

Lemma invoke_pipeline env state : invoke env state = pipeline env state.
Proof.
  unfold invoke, pipeline, stage, finished, recursion_limit.
  change (entry build_graph) with load_memory_node.
  rewrite run_step. destruct (run_node env load_memory_node state) as [s1|e]; [|done].
  change (next_node build_graph load_memory_node s1) with (Ok (Some orchestrator_node)).
  cbv iota beta. rewrite run_step.
  destruct (run_node env orchestrator_node s1) as [s2|e]; [|done].
  rewrite next_node_orchestrator.
  destruct (orchestrator_route s2) as [r|e]; [|done].
  cbn [mbind result_bind]. cbv iota beta. rewrite run_step.
  destruct r; cbn [path_map].
  - destruct (run_node env video_agent_node s2) as [s3|e]; [|done].
    change (next_node build_graph video_agent_node s3) with (Ok (Some update_memory_node)).
    cbv iota beta. rewrite run_step.
    by destruct (run_node env update_memory_node s3).
  - destruct (run_node env transcript_agent_node s2) as [s3|e]; [|done].
    change (next_node build_graph transcript_agent_node s3)
      with (Ok (Some update_memory_node)).
    cbv iota beta. rewrite run_step.
    by destruct (run_node env update_memory_node s3).
  - destruct (run_node env report_agent_node s2) as [s3|e]; [|done].
    change (next_node build_graph report_agent_node s3)
      with (Ok (Some update_memory_node)).
    cbv iota beta. rewrite run_step.
    by destruct (run_node env update_memory_node s3).
  - by destruct (run_node env update_memory_node s2).
Qed.

(** What each node leaves in the state. *)
Lemma load_memory_inv state s1 :
  load_memory state = Ok s1 →
  ∃ mem uid sid mem1,
    memory state = Some mem ∧ user_id state = Some uid ∧ session_id state = Some sid
    ∧ add_chat_session uid sid mem = Ok mem1
    ∧ s1 = set_chat_history (get_context uid sid (Some 8%Z) mem1) (set_memory mem1 state).
Proof.
  unfold load_memory.
  destruct (memory state) as [mem|]; [|done].
  destruct (user_id state) as [uid|]; [|done].
  destruct (session_id state) as [sid|]; [|done].
  destruct (add_chat_session uid sid mem) as [mem1|e] eqn:E; [|done].
  cbn [mbind result_bind]. intros [= <-]. by exists mem, uid, sid, mem1.
Qed.

Lemma orchestrator_inv env state s2 :
  orchestrator env state = Ok s2 →
  ∃ query content,
    user_query state = Some query
    ∧ hug_llm env (classifier_messages query) = Ok content
    ∧ s2 = set_orchestrator_msg (clean_think_blocks content)
             (set_final_response (clean_think_blocks content) state).
Proof.
  unfold orchestrator.
  destruct (user_query state) as [query|]; [|done]. cbn [getitem mbind result_bind].
  fold (classifier_messages query).
  destruct (hug_llm env (classifier_messages query)) as [content|e] eqn:E; [|done].
  cbn [mbind result_bind]. intros [= <-]. by exists query, content.
Qed.

(** A task handler touches the response (and the report path) only. *)
Lemma handler_inv env r state s3 :
  r ≠ end_ →
  run_node env (path_map r) state = Ok s3 →
  memory s3 = memory state ∧ user_id s3 = user_id state
  ∧ session_id s3 = session_id state ∧ user_query s3 = user_query state
  ∧ is_Some (final_response s3).
Proof.
  intros Hr. destruct r; [| | |done]; cbn [path_map run_node].
  - unfold video_agent.
    destruct (video_path state) eqn:?; [|done].
    destruct (user_query state) eqn:?; [|done].
    cbn [getitem mbind result_bind]. intros [= <-]. simpl. by repeat split.
  - unfold transcript_agent.
    destruct (video_path state) eqn:?; [|done].
    cbn [getitem mbind result_bind]. intros [= <-]. simpl. by repeat split.
  - unfold report_agent.
    destruct (memory state) eqn:?; [|done]. destruct (user_id state) eqn:?; [|done].
    destruct (session_id state) eqn:?; [|done].
    destruct (user_query state) eqn:?; [|done].
    cbn [getitem mbind result_bind].
    destruct (hug_llm env _); [|done]. cbn [mbind result_bind].
    destruct (try_except _ _) as [rp ra]. intros [= <-]. simpl. by repeat split.
Qed.

Lemma update_memory_appends state mem uid sid query response :
  memory state = Some mem → user_id state = Some uid → session_id state = Some sid →
  user_query state = Some query → final_response state = Some response →
  ∃ mem',
    update_memory state = Ok (set_memory mem' state)
    ∧ get_history uid sid mem'
      = get_history uid sid mem ++ [human_turn query; ai_turn response]
    ∧ ∀ u' s', (u', s') ≠ (uid, sid) → get_history u' s' mem' = get_history u' s' mem.
Proof.
  intros Hm Hu Hs Hq Hf. unfold update_memory.
  rewrite Hm, Hu, Hs, Hq, Hf. cbn [getitem mbind result_bind].
  destruct (add_message_history uid sid human_role query mem) as (m1 & H1 & Hh1 & Ho1 & _).
  destruct (add_message_history uid sid ai_role response m1) as (m2 & H2 & Hh2 & Ho2 & _).
  rewrite H1. cbn [mbind result_bind]. rewrite H2. cbn [mbind result_bind].
  exists m2. split; [done|]. split.
  - rewrite Hh2, Hh1, <- app_assoc. done.
  - intros u' s' Hne. by rewrite Ho2, Ho1.
Qed.

End graph.

Section finalize.

Import MemoryManager.

Implicit Types state : GraphState.
Implicit Types env : Collaborators.

Lemma finalize_general env state trace outcome :
  invoke env state = (trace, outcome) →
  last trace = Some update_memory_node →
  ∃ state' mem mem' uid sid query response,
    outcome = Ok state'
    ∧ memory state = Some mem ∧ user_id state = Some uid
    ∧ session_id state = Some sid ∧ user_query state = Some query
    ∧ final_response state' = Some response ∧ memory state' = Some mem'
    ∧ get_history uid sid mem'
      = get_history uid sid mem ++ [human_turn query; ai_turn response]
    ∧ ∀ u' s', (u', s') ≠ (uid, sid) → get_history u' s' mem' = get_history u' s' mem.
Proof.
  rewrite invoke_pipeline. unfold pipeline, stage, finished.
  cbn [run_node].
  destruct (load_memory state) as [s1|e] eqn:E1; [|by intros [= <- <-]].
  apply load_memory_inv in E1 as (mem & uid & sid & mem1 & Hm & Hu & Hs & Hadd & ->).
  destruct (orchestrator env _) as [s2|e] eqn:E2; [|by intros [= <- <-]].
  apply orchestrator_inv in E2 as (query & content & Hq & Hllm & ->).
  simpl in Hq.
  set (s2 := set_orchestrator_msg _ _).
  assert (memory s2 = Some mem1 ∧ user_id s2 = Some uid ∧ session_id s2 = Some sid
          ∧ user_query s2 = Some query
          ∧ final_response s2 = Some (clean_think_blocks content))
    as (Hm2 & Hu2 & Hs2 & Hq2 & Hf2) by done.
  clearbody s2.
  assert (∀ u' s', get_history u' s' mem1 = get_history u' s' mem) as Hsame.
  { intros u' s'. by eapply add_chat_session_history. }
  assert (∀ s3, memory s3 = Some mem1 → user_id s3 = Some uid →
                session_id s3 = Some sid → user_query s3 = Some query →
                is_Some (final_response s3) →
                ∀ tr out,
                  (match update_memory s3 with
                   | Raise e => ([update_memory_node], Raise e)
                   | Ok s4 => ([update_memory_node], Ok s4)
                   end) = (tr, out) →
                  ∃ state' mem' response,
                    out = Ok state' ∧ final_response state' = Some response
                    ∧ memory state' = Some mem'
                    ∧ get_history uid sid mem'
                      = get_history uid sid mem ++ [human_turn query; ai_turn response]
                    ∧ ∀ u' s', (u', s') ≠ (uid, sid) →
                               get_history u' s' mem' = get_history u' s' mem) as Hfin.
  { intros s3 Hm3 Hu3 Hs3 Hq3 [response Hf3] tr out.
    destruct (update_memory_appends s3 mem1 uid sid query response)
      as (mem' & Hup & Hh & Ho); [done..|].
    rewrite Hup. intros [= <- <-].
    exists (set_memory mem' s3), mem', response.
    split; [done|]. split; [done|]. split; [done|]. split.
    - by rewrite Hh, Hsame.
    - intros u' s' Hne. by rewrite Ho, Hsame. }
  destruct (orchestrator_route s2) as [r|e]; [|by intros [= <- <-]].
  destruct (decide (r = end_)) as [->|Hr].
  - cbn [path_map run_node].
    destruct (update_memory s2) as [s4|e] eqn:E4.
    + intros [= <- <-] _.
      destruct (Hfin s2 Hm2 Hu2 Hs2 Hq2 ltac:(by rewrite Hf2)
                  [update_memory_node] (Ok s4))
        as (state' & mem' & response & Ho & Hf' & Hm' & Hh' & Ho'); [by rewrite E4|].
      exists state', mem, mem', uid, sid, query, response. by repeat split.
    + intros [= <- <-] _.
      destruct (Hfin s2 Hm2 Hu2 Hs2 Hq2 ltac:(by rewrite Hf2)
                  [update_memory_node] (Raise e))
        as (state' & mem' & response & Ho & Hf' & Hm' & Hh' & Ho'); [by rewrite E4|]. done.
  - destruct (run_node env (path_map r) s2) as [s3|e] eqn:E3.
    + apply (handler_inv _ _ _ _ Hr) in E3 as (Hm3 & Hu3 & Hs3 & Hq3 & Hf3).
      rewrite Hm2 in Hm3. rewrite Hu2 in Hu3. rewrite Hs2 in Hs3. rewrite Hq2 in Hq3.
      destruct r; [| | |done];
        (destruct (update_memory s3) as [s4|e'] eqn:E4; cbn; intros [= <- <-] _;
         [ destruct (Hfin s3 Hm3 Hu3 Hs3 Hq3 Hf3 [update_memory_node] (Ok s4))
             as (state' & mem' & response & Ho & Hf' & Hm' & Hh' & Ho');
           [by rewrite E4|];
           exists state', mem, mem', uid, sid, query, response; by repeat split
         | destruct (Hfin s3 Hm3 Hu3 Hs3 Hq3 Hf3 [update_memory_node] (Raise e'))
             as (state' & mem' & response & Ho & _); [by rewrite E4|]; done ]).
    + intros [= <- <-]. by destruct r.
Qed.

End finalize.

Section rejection.

Import MemoryManager.

Implicit Types state : GraphState.
Implicit Types env : Collaborators.

Lemma load_memory_ok state mem uid sid :
  memory state = Some mem → user_id state = Some uid → session_id state = Some sid →
  ∃ mem1,
    add_chat_session uid sid mem = Ok mem1
    ∧ load_memory state
      = Ok (set_chat_history (get_context uid sid (Some 8%Z) mem1) (set_memory mem1 state)).
Proof.
  intros Hm Hu Hs. unfold load_memory. rewrite Hm, Hu, Hs.
  destruct (add_chat_session_store uid sid mem) as (mem1 & H1 & _).
  exists mem1. split; [done|]. by rewrite H1.
Qed.

Lemma orchestrator_ok env state query content :
  user_query state = Some query →
  hug_llm env (classifier_messages query) = Ok content →
  orchestrator env state
  = Ok (set_orchestrator_msg (clean_think_blocks content)
          (set_final_response (clean_think_blocks content) state)).
Proof.
  intros Hq Hllm. unfold orchestrator. rewrite Hq. cbn [getitem mbind result_bind].
  fold (classifier_messages query). by rewrite Hllm.
Qed.

(** When the classifier's answer routes to [end_], no handler runs and the
    answer, freed of its think blocks, is the response stored. *)
Lemma rejection_path env state mem uid sid query content :
  memory state = Some mem → user_id state = Some uid → session_id state = Some sid →
  user_query state = Some query →
  hug_llm env (classifier_messages query) = Ok content →
  routing_policy (clean_think_blocks content) = end_ →
  ∃ state' mem',
    invoke env state
    = ([load_memory_node; orchestrator_node; update_memory_node], Ok state')
    ∧ final_response state' = Some (clean_think_blocks content)
    ∧ memory state' = Some mem'
    ∧ get_history uid sid mem'
      = get_history uid sid mem
          ++ [human_turn query; ai_turn (clean_think_blocks content)].
Proof.
  intros Hm Hu Hs Hq Hllm Hroute.
  destruct (load_memory_ok state mem uid sid Hm Hu Hs) as (mem1 & Hadd & Hload).
  set (s1 := set_chat_history _ _) in Hload.
  pose proof (orchestrator_ok env s1 query content Hq Hllm) as Horch.
  set (s2 := set_orchestrator_msg _ _) in Horch.
  assert (orchestrator_route s2 = Ok end_) as Hr.
  { rewrite (orchestrator_route_eq s2 (clean_think_blocks content)) by done.
    by rewrite Hroute. }
  destruct (update_memory_appends s2 mem1 uid sid query (clean_think_blocks content))
    as (mem' & Hup & Hh & _); [done..|].
  exists (set_memory mem' s2), mem'.
  split; [|split; [done|split; [done|]]].
  - rewrite invoke_pipeline. unfold pipeline, stage, finished. cbn [run_node].
    rewrite Hload, Horch, Hr. cbn [path_map run_node]. by rewrite Hup.
  - rewrite Hh. f_equal. by eapply add_chat_session_history.
Qed.


(** When the class is report generation and the second call of the chat
    model raises, the exception leaves the graph from the report handler. *)
Lemma report_failure_leaves env state mem uid sid query content e :
  memory state = Some mem → user_id state = Some uid → session_id state = Some sid →
  user_query state = Some query →
  hug_llm env (classifier_messages query) = Ok content →
  routing_policy (clean_think_blocks content) = report_analyst →
  (∀ mem', hug_llm env (report_messages mem' uid sid query) = Raise e) →
  invoke env state = ([load_memory_node; orchestrator_node; report_agent_node], Raise e).
Proof.
  intros Hm Hu Hs Hq Hc Hr Hfail.
  destruct (load_memory_ok state mem uid sid Hm Hu Hs) as (mem1 & Hadd & Hload).
  set (s1 := set_chat_history _ _) in Hload.
  pose proof (orchestrator_ok env s1 query content Hq Hc) as Horch.
  set (s2 := set_orchestrator_msg _ _) in Horch.
  assert (memory s2 = Some mem1 ∧ user_id s2 = Some uid ∧ session_id s2 = Some sid
          ∧ user_query s2 = Some query
          ∧ orchestrator_msg s2 = Some (clean_think_blocks content))
    as (Hm2 & Hu2 & Hs2 & Hq2 & Ho2) by done.
  clearbody s2.
  rewrite invoke_pipeline. unfold pipeline, stage, finished. cbn [run_node].
  rewrite Hload, Horch, (orchestrator_route_eq _ _ Ho2), Hr.
  cbn [path_map run_node]. unfold report_agent.
  rewrite Hm2, Hu2, Hs2, Hq2. cbn [getitem mbind result_bind].
  fold (report_messages mem1 uid sid query). by rewrite Hfail.
Qed.

(** C4.  A run that reaches [update_memory] ends well, and the session of
    the request then holds what it held before followed by exactly two
    turns: the role Human with the query, then the role AI with the final
    response; no other session changes.  This includes the path on which
    the classifier's answer routes to [end_]: the run is then
    load_memory, orchestrator, update_memory, and the final response is the
    classifier's answer (the refusal text, for a request of several
    tasks). *)
Theorem update_memory_appends_two_turns :
  (∀ env state trace outcome,
     invoke env state = (trace, outcome) →
     last trace = Some update_memory_node →
     ∃ state' mem mem' uid sid query response,
       outcome = Ok state'
       ∧ memory state = Some mem ∧ user_id state = Some uid
       ∧ session_id state = Some sid ∧ user_query state = Some query
       ∧ final_response state' = Some response ∧ memory state' = Some mem'
       ∧ get_history uid sid mem'
         = get_history uid sid mem ++ [human_turn query; ai_turn response]
       ∧ ∀ u' s', (u', s') ≠ (uid, sid) →
                  get_history u' s' mem' = get_history u' s' mem)
  ∧ (∀ env state mem uid sid query content,
       memory state = Some mem → user_id state = Some uid →
       session_id state = Some sid → user_query state = Some query →
       hug_llm env (classifier_messages query) = Ok content →
       routing_policy (clean_think_blocks content) = end_ →
       ∃ state' mem',
         invoke env state
         = ([load_memory_node; orchestrator_node; update_memory_node], Ok state')
         ∧ final_response state' = Some (clean_think_blocks content)
         ∧ memory state' = Some mem'
         ∧ get_history uid sid mem'
           = get_history uid sid mem
               ++ [human_turn query; ai_turn (clean_think_blocks content)])
  ∧ (let run :=
       invoke (fixed_env (Ok mercy_message) failure failure failure failure 0)
         (request "First transcribe the video and then summarize it.") in
     run.1 = [load_memory_node; orchestrator_node; update_memory_node]
     ∧ (final_response <$> run.2) = Ok (Some mercy_message)
     ∧ ((fun st => get_history (py "user1") (py "Session 1") <$> memory st) <$> run.2)
       = Ok (Some [human_turn (py "First transcribe the video and then summarize it.");
                   ai_turn mercy_message])).
Proof.
  split; [exact finalize_general|].
  split; [exact rejection_path|].
  cbv zeta. repeat split; vm_compute; reflexivity.
Qed.

Lemma update_memory_appends_two_turns_witness :
  let run :=
    invoke
      (fixed_env (Ok (classifier_reply "transcript_analysis" "transcript_analyst"))
         failure (Ok (py "meow")) failure failure 4)
      (request "Transcribe this video") in
  ∃ state' mem mem' uid sid query response,
    run.2 = Ok state'
    ∧ memory (request "Transcribe this video") = Some mem
    ∧ user_id (request "Transcribe this video") = Some uid
    ∧ session_id (request "Transcribe this video") = Some sid
    ∧ user_query (request "Transcribe this video") = Some query
    ∧ final_response state' = Some response ∧ memory state' = Some mem'
    ∧ get_history uid sid mem'
      = get_history uid sid mem ++ [human_turn query; ai_turn response]
    ∧ ∀ u' s', (u', s') ≠ (uid, sid) →
               get_history u' s' mem' = get_history u' s' mem.
Proof.
  cbv zeta.
  set (env := fixed_env _ _ _ _ _ _). set (state := request _).
  apply (proj1 update_memory_appends_two_turns env state
           (invoke env state).1 (invoke env state).2);
    [by destruct (invoke _ _) | vm_compute; reflexivity].
Defined.

End rejection.

(** ** Where the code departs from the specification *)

Section departures.

Import MemoryManager.

(** C3 (defect).  With the window 0 [get_context] returns every turn of the
    session, not none: [history[-0:]] is the whole list.  A negative window
    drops turns from the front.  Windows of one and more behave as
    specified (see [get_context_window]). *)
Lemma get_context_window_zero :
  (∀ u s m, get_context u s (Some 0%Z) m = get_context u s None m)
  ∧ get_context (py "user1") (py "Session 1") (Some 0%Z) two_turns
    = py "Human: hi" ++ [10] ++ py "AI: hello"
  ∧ get_context (py "user1") (py "Session 1") (Some 1%Z) two_turns = py "AI: hello"
  ∧ get_context (py "user1") (py "Session 1") (Some 2%Z) two_turns
    = py "Human: hi" ++ [10] ++ py "AI: hello"
  ∧ get_context (py "user1") (py "Session 1") (Some 8%Z) two_turns
    = py "Human: hi" ++ [10] ++ py "AI: hello"
  ∧ get_context (py "user1") (py "Session 1") (Some (-1)%Z) two_turns = py "AI: hello"
  ∧ get_context (py "user1") (py "Session 2") (Some 8%Z) two_turns = [].
Proof.
  split.
  { intros u s m. destruct (get_context_all u s m) as [-> ->]. done. }
  repeat split; vm_compute; reflexivity.
Qed.

(** C2 (defect).  The second call of the chat model, in [report_agent],
    stands before the [try]: when it raises, the run stops in the report
    handler with that exception, without response and without memory
    update.  The first call, in [orchestrator], is unguarded as well.  The
    transcript and the vision handler do catch the failure of their
    collaborator and the run completes with the apology. *)
Lemma report_model_failure_propagates :
  (∀ env state mem uid sid query content e,
     memory state = Some mem → user_id state = Some uid →
     session_id state = Some sid → user_query state = Some query →
     hug_llm env (classifier_messages query) = Ok content →
     routing_policy (clean_think_blocks content) = report_analyst →
     (∀ mem', hug_llm env (report_messages mem' uid sid query) = Raise e) →
     invoke env state
     = ([load_memory_node; orchestrator_node; report_agent_node], Raise e))
  ∧ invoke
      (fixed_env (Ok (classifier_reply "report_generation" "report_analyst"))
         failure failure failure failure 0)
      (request "Generate a PDF report of the results.")
    = ([load_memory_node; orchestrator_node; report_agent_node],
       Raise (RuntimeError (py "inference failed")))
  ∧ invoke (fixed_env failure failure failure failure failure 0)
      (request "Generate a PDF report of the results.")
    = ([load_memory_node; orchestrator_node], Raise (RuntimeError (py "inference failed")))
  ∧ (let run :=
       invoke
         (fixed_env (Ok (classifier_reply "transcript_analysis" "transcript_analyst"))
            failure failure failure failure 0)
         (request "Transcribe this video") in
     run.1 = [load_memory_node; orchestrator_node; transcript_agent_node;
              update_memory_node]
     ∧ (final_response <$> run.2) = Ok (Some apology))
  ∧ (let run :=
       invoke
         (fixed_env (Ok (classifier_reply "video_analysis" "video_analyst"))
            failure failure failure failure 0)
         (request "What happens in this clip?") in
     run.1 = [load_memory_node; orchestrator_node; video_agent_node; update_memory_node]
     ∧ (final_response <$> run.2) = Ok (Some apology)).
Proof.
  split; [exact report_failure_leaves|].
  cbv zeta. repeat split; vm_compute; reflexivity.
Qed.

End departures.

Section transcript_example.

Lemma transcript_agent_spec_witness :
  ∃ template,
    template ∈ ai_responses
    ∧ transcript_agent
        (fixed_env (Ok (classifier_reply "transcript_analysis" "transcript_analyst"))
           failure (Ok (py "a cat meows twice")) failure failure 7)
        (request "Transcribe this video")
      = Ok (set_final_response (template_head template ++ py "a cat meows twice")
              (request "Transcribe this video")).
Proof.
  apply (proj1 (proj2 (proj2 (proj2 transcript_agent_spec)))
           (fixed_env (Ok (classifier_reply "transcript_analysis" "transcript_analyst"))
              failure (Ok (py "a cat meows twice")) failure failure 7)
           (request "Transcribe this video") (py "uploaded/cat.mp4")
           (py "a cat meows twice"));
    reflexivity.
Defined.

End transcript_example.

(** ** Further properties of the code *)

Section further.

Import MemoryManager.

Implicit Types state : GraphState.
Implicit Types env : Collaborators.
Implicit Types m : MemoryManager.t.

(** X1.  For a window of one or more turns, [get_context] gives exactly the
    min(N, window) most recent of the N turns of the session, oldest first,
    each as its role, a colon and a blank, and its content, the lines joined
    by a newline; for an absent or empty session it gives the empty text. *)
Theorem get_context_recent_window :
  ∀ (u s : list N) (k : Z) m,
    (0 < k)%Z →
    get_context u s (Some k) m
    = join [10]
        (map (fun t => role t ++ py ": " ++ content t)
           (last_n (Z.to_nat k `min` length (get_history u s m)) (get_history u s m)))
    ∧ (get_history u s m = [] → get_context u s (Some k) m = []).
Proof.
  intros u s k m Hk. split; [by apply get_context_window|].
  apply get_context_absent.
Qed.

Lemma get_context_recent_window_witness :
  get_context (py "user1") (py "Session 1") (Some 1%Z) two_turns
  = join [10]
      (map (fun t => role t ++ py ": " ++ content t)
         (last_n (Z.to_nat 1 `min`
                    length (get_history (py "user1") (py "Session 1") two_turns))
            (get_history (py "user1") (py "Session 1") two_turns)))
  ∧ (get_history (py "user1") (py "Session 1") two_turns = [] →
     get_context (py "user1") (py "Session 1") (Some 1%Z) two_turns = []).
Proof.
  apply (get_context_recent_window (py "user1") (py "Session 1") 1%Z two_turns). lia.
Defined.

(** X2.  [add_message] always returns; it appends exactly one turn, with the
    role and content given, to the session named, creating the session when
    it is absent, and leaves every other session as it was; when the object
    persists, the snapshot written last is the store it leaves. *)
Theorem add_message_appends_one_turn :
  ∀ (u s r c : list N) m,
    ∃ m', add_message u s r c m = Ok m'
          ∧ get_history u s m' = get_history u s m ++ [{| role := r; content := c |}]
          ∧ (∀ u' s', (u', s') ≠ (u, s) → get_history u' s' m' = get_history u' s' m)
          ∧ (persist m = true → head (dumped m') = Some (memory_store m')).
Proof.
  intros u s r c m.
  destruct (add_message_history u s r c m) as (m' & H & Hh & Ho & Hp).
  exists m'. split; [done|]. split; [done|]. split; [done|].
  intros Hpersist. unfold add_message in H.
  destruct (add_chat_session_store u s m) as (m1 & H1 & _ & Hp1).
  rewrite H1 in H. cbn [mbind result_bind] in H.
  destruct (memory_store m1 !! u) as [ss|]; [|done].
  cbn [getitem mbind result_bind] in H.
  destruct (ss !! s) as [h|]; [|done].
  cbn [getitem mbind result_bind] in H. injection H as <-.
  unfold save_if_persist. cbn [persist with_store]. by rewrite Hp1, Hpersist.
Qed.

(** X3.  A run of the compiled graph is the pipeline load_memory,
    orchestrator, then the one handler the route selects followed by
    update_memory, or update_memory alone for the route end; it stops at the
    first node that raises, and never for want of steps. *)
Theorem invoke_follows_pipeline :
  ∀ env state, invoke env state = pipeline env state.
Proof. exact invoke_pipeline. Qed.

(** X4.  The vision handler answers with the reply extracted from the
    model's output, and with the apology when the model raises; it returns
    in both cases. *)
Theorem video_agent_spec :
  (∀ env state path query content,
     video_path state = Some path → user_query state = Some query →
     vlm env path query = Ok content →
     video_agent env state
     = Ok (set_final_response (extract_assistant_response content) state))
  ∧ (∀ env state path query e,
       video_path state = Some path → user_query state = Some query →
       vlm env path query = Raise e →
       video_agent env state = Ok (set_final_response apology state)).
Proof.
  split.
  - intros env state path query content Hp Hq Hv. unfold video_agent.
    rewrite Hp, Hq. cbn [getitem mbind result_bind]. by rewrite Hv.
  - intros env state path query e Hp Hq Hv. unfold video_agent.
    rewrite Hp, Hq. cbn [getitem mbind result_bind]. by rewrite Hv.
Qed.

(** X5.  When the second-stage answer, freed of its think blocks, is a JSON
    object with an args entry and the renderer returns a path for it, the
    report handler answers with one of the ten success messages and stores
    that path. *)
Theorem report_agent_success :
  ∀ env state mem uid sid query content d args file,
    memory state = Some mem → user_id state = Some uid →
    session_id state = Some sid → user_query state = Some query →
    hug_llm env (report_messages mem uid sid query) = Ok content →
    json_loads (clean_think_blocks content) = Ok (JObject d) →
    dict_get (py "args") d = Some args →
    generate_report env args = Ok file →
    length success_responses = 10%nat
    ∧ ∃ response,
        response ∈ success_responses
        ∧ report_agent env state
          = Ok (set_final_response response (set_report_path file state)).
Proof.
  intros env state mem uid sid query content d args file Hm Hu Hs Hq Hllm Hj Ha Hg.
  split; [done|].
  destruct (random_choice_elem env success_responses) as (response & Hin & Hc); [done|].
  exists response. split; [done|]. unfold report_agent.
  rewrite Hm, Hu, Hs, Hq. cbn [getitem mbind result_bind].
  fold (report_messages mem uid sid query). rewrite Hllm.
  cbn [mbind result_bind]. rewrite Hj. cbn [mbind result_bind subscript]. rewrite Ha.
  cbn [mbind result_bind]. rewrite Hg. cbn [mbind result_bind]. by rewrite Hc.
Qed.

Lemma report_agent_success_witness :
  length success_responses = 10%nat
  ∧ ∃ response,
      response ∈ success_responses
      ∧ report_agent
          (fixed_env (Ok (classifier_reply "report_generation" "report_analyst"))
             (Ok (py "<think>a pdf</think>" ++ report_reply)) failure failure
             (Ok (py "report/cat_report.pdf")) 12)
          (request "Make a PDF report of the results")
        = Ok (set_final_response response
                (set_report_path (py "report/cat_report.pdf")
                   (request "Make a PDF report of the results"))).
Proof.
  apply (report_agent_success _ _ empty_memory (py "user1") (py "Session 1")
           (py "Make a PDF report of the results")
           (py "<think>a pdf</think>" ++ report_reply)
           [(py "tool_name", JString (py "generate_file")); (py "args", report_args)]
           report_args (py "report/cat_report.pdf"));
    try reflexivity; vm_compute; reflexivity.
Defined.


End further.

(** ** The cleanup methods of [MemoryManager] *)

Section cleanup.

Import MemoryManager.

Implicit Types m : MemoryManager.t.
Implicit Types u s : list N.

Lemma has_session_lookup u s m :
  has_session u s m ↔ is_Some (memory_store m !! u ≫= (.!! s)).
Proof.
  unfold has_session. split.
  - intros (ss & h & -> & Hs). simpl. by rewrite Hs.
  - destruct (memory_store m !! u) as [ss|]; simpl; [|by intros [? [=]]].
    intros [h Hs]. by exists ss, h.
Qed.

Lemma has_session_sessions_of u s m : has_session u s m ↔ s ∈ sessions_of u m.
Proof.
  rewrite has_session_lookup. unfold sessions_of. rewrite elem_of_dom.
  by destruct (memory_store m !! u).
Qed.

Lemma not_has_session_history u s m : ¬ has_session u s m → get_history u s m = [].
Proof.
  rewrite has_session_lookup, get_history_lookup.
  destruct (memory_store m !! u ≫= _); [|done]. intros []. by eexists.
Qed.

Lemma has_session_cases u s m : has_session u s m ∨ ¬ has_session u s m.
Proof.
  rewrite has_session_lookup. destruct (memory_store m !! u ≫= _); [left|right].
  - by eexists.
  - by intros [? [=]].
Qed.

Lemma save_if_persist_head m :
  persist m = true → head (dumped (save_if_persist m)) = Some (memory_store m).
Proof. unfold save_if_persist. by intros ->. Qed.

Lemma save_if_persist_quiet m : persist m = false → save_if_persist m = m.
Proof. unfold save_if_persist. by intros ->. Qed.

(** [clear_session] *)
Lemma clear_session_present u s m :
  has_session u s m →
  memory_store (clear_session u s m)
  = <[u := <[s := []]> (default ∅ (memory_store m !! u))]> (memory_store m)
  ∧ persist (clear_session u s m) = persist m
  ∧ (persist m = true →
     head (dumped (clear_session u s m)) = Some (memory_store (clear_session u s m))).
Proof.
  intros (ss & h & Hu & Hs). unfold clear_session. rewrite Hu, Hs.
  rewrite save_if_persist_store, save_if_persist_persist. simpl.
  split; [done|]. split; [done|]. intros Hp. by rewrite save_if_persist_head.
Qed.

Lemma clear_session_absent u s m : ¬ has_session u s m → clear_session u s m = m.
Proof.
  intros H. unfold clear_session.
  destruct (memory_store m !! u) as [ss|] eqn:Hu; [|done].
  destruct (ss !! s) as [h|] eqn:Hs; [|done].
  destruct H. by exists ss, h.
Qed.

Lemma clear_session_history u s m u' s' :
  get_history u' s' (clear_session u s m)
  = if decide ((u', s') = (u, s)) then [] else get_history u' s' m.
Proof.
  destruct (has_session_cases u s m) as [H|H].
  - destruct (clear_session_present u s m H) as (Hst & _).
    rewrite !get_history_lookup, Hst.
    destruct (decide (u' = u)) as [->|Hu].
    + rewrite lookup_insert_eq. simpl.
      destruct (decide (s' = s)) as [->|Hs].
      * rewrite lookup_insert_eq. by rewrite decide_True.
      * rewrite lookup_insert_ne by done. rewrite decide_False by congruence.
        by destruct (memory_store m !! u).
    + rewrite lookup_insert_ne by done. by rewrite decide_False by congruence.
  - rewrite (clear_session_absent _ _ _ H).
    case_decide as E; [|done]. injection E as -> ->.
    by apply not_has_session_history.
Qed.

Lemma clear_session_sessions u s m u' :
  sessions_of u' (clear_session u s m) = sessions_of u' m.
Proof.
  destruct (has_session_cases u s m) as [H|H].
  - destruct (clear_session_present u s m H) as (Hst & _).
    unfold sessions_of. rewrite Hst.
    destruct (decide (u' = u)) as [->|Hu].
    + rewrite lookup_insert_eq. simpl. rewrite dom_insert_L.
      apply has_session_sessions_of in H. unfold sessions_of in H.
      apply subseteq_union_1_L. by apply singleton_subseteq_l.
    + by rewrite lookup_insert_ne.
  - by rewrite (clear_session_absent _ _ _ H).
Qed.

(** [remove_session] *)
Lemma remove_session_known u s m sessions :
  memory_store m !! u = Some sessions →
  memory_store (remove_session u s m) = <[u := delete s sessions]> (memory_store m)
  ∧ persist (remove_session u s m) = persist m
  ∧ (persist m = true →
     dumped (remove_session u s m) = memory_store (remove_session u s m) :: dumped m).
Proof.
  intros Hu. unfold remove_session. rewrite Hu.
  rewrite save_if_persist_store, save_if_persist_persist. simpl.
  split; [done|]. split; [done|]. intros Hp.
  unfold save_if_persist. simpl. by rewrite Hp.
Qed.

Lemma remove_session_unknown u s m :
  memory_store m !! u = None → remove_session u s m = m.
Proof. unfold remove_session. by intros ->. Qed.

Lemma remove_session_history u s m u' s' :
  get_history u' s' (remove_session u s m)
  = if decide ((u', s') = (u, s)) then [] else get_history u' s' m.
Proof.
  destruct (memory_store m !! u) as [ss|] eqn:Hu.
  - destruct (remove_session_known u s m ss Hu) as (Hst & _).
    rewrite !get_history_lookup, Hst.
    destruct (decide (u' = u)) as [->|Hu'].
    + rewrite lookup_insert_eq. simpl.
      destruct (decide (s' = s)) as [->|Hs].
      * rewrite lookup_delete_eq. by rewrite decide_True.
      * rewrite lookup_delete_ne by done. rewrite decide_False by congruence.
        by rewrite Hu.
    + rewrite lookup_insert_ne by done. by rewrite decide_False by congruence.
  - rewrite (remove_session_unknown _ _ _ Hu).
    case_decide as E; [|done]. injection E as -> ->.
    rewrite get_history_lookup. by rewrite Hu.
Qed.

Lemma remove_session_sessions u s m u' :
  sessions_of u' (remove_session u s m)
  = if decide (u' = u) then sessions_of u m ∖ {[s]} else sessions_of u' m.
Proof.
  destruct (memory_store m !! u) as [ss|] eqn:Hu.
  - destruct (remove_session_known u s m ss Hu) as (Hst & _).
    unfold sessions_of. rewrite Hst.
    destruct (decide (u' = u)) as [->|Hu'].
    + rewrite lookup_insert_eq, Hu. simpl. by rewrite dom_delete_L.
    + by rewrite lookup_insert_ne.
  - rewrite (remove_session_unknown _ _ _ Hu).
    case_decide as E; [|done]. subst u'. unfold sessions_of. rewrite Hu. simpl.
    rewrite dom_empty_L. apply set_eq. intros x. rewrite elem_of_difference.
    split; [by intros ?%elem_of_empty | by intros [?%elem_of_empty _]].
Qed.

(** [remove_user] *)
Lemma remove_user_history u m u' s' :
  get_history u' s' (remove_user u m)
  = if decide (u' = u) then [] else get_history u' s' m.
Proof.
  unfold remove_user. rewrite !get_history_lookup, save_if_persist_store. simpl.
  case_decide as E.
  - subst u'. by rewrite lookup_delete_eq.
  - by rewrite lookup_delete_ne.
Qed.

Lemma remove_user_sessions u m u' :
  sessions_of u' (remove_user u m)
  = if decide (u' = u) then ∅ else sessions_of u' m.
Proof.
  unfold remove_user, sessions_of. rewrite save_if_persist_store. simpl.
  case_decide as E.
  - subst u'. by rewrite lookup_delete_eq.
  - by rewrite lookup_delete_ne.
Qed.

(** [list_sessions] and [list_users] *)
Lemma list_sessions_spec u m :
  NoDup (list_sessions u m)
  ∧ (∀ s, s ∈ list_sessions u m ↔ has_session u s m)
  ∧ length (list_sessions u m) = size (sessions_of u m).
Proof.
  unfold list_sessions, sessions_of. split; [apply NoDup_fst_map_to_list|]. split.
  - intros s. rewrite has_session_lookup, list_elem_of_fmap.
    destruct (memory_store m !! u) as [ss|]; simpl.
    + split.
      * intros ([s' h] & -> & H%elem_of_map_to_list). by exists h.
      * intros [h H]. exists (s, h). split; [done|]. by apply elem_of_map_to_list.
    + rewrite map_to_list_empty. split; [by intros (? & _ & ?%elem_of_nil)|by intros [? [=]]].
  - by rewrite length_fmap, length_map_to_list, size_dom.
Qed.

(** X7.  [clear_session] empties the session named when it exists, and
    only that: every other session keeps its turns, no session appears or
    disappears, [get_context] gives the empty text for it afterwards; on a
    session that does not exist it does nothing at all (it does not create
    it, and writes nothing); when it empties a session of a persisting
    object, what it writes is the store it leaves. *)
Theorem clear_session_spec :
  ∀ (u s : list N) m,
    (∀ u' s', get_history u' s' (clear_session u s m)
              = if decide ((u', s') = (u, s)) then [] else get_history u' s' m)
    ∧ (∀ u', sessions_of u' (clear_session u s m) = sessions_of u' m)
    ∧ (∀ top_k, get_context u s top_k (clear_session u s m) = [])
    ∧ (¬ has_session u s m → clear_session u s m = m)
    ∧ (has_session u s m → persist m = true →
       head (dumped (clear_session u s m)) = Some (memory_store (clear_session u s m))).
Proof.
  intros u s m. split; [apply clear_session_history|].
  split; [apply clear_session_sessions|]. split.
  { intros top_k. apply get_context_absent.
    by rewrite clear_session_history, decide_True. }
  split; [apply clear_session_absent|].
  intros H. by apply clear_session_present.
Qed.

(** X8.  [remove_session] removes the session named and nothing else: its
    turns are gone, every other session keeps its turns, the user stays
    known even when this was their last session.  For an unknown user it
    does nothing; for a known user of a persisting object it writes the
    store it leaves, also when the session did not exist. *)
Theorem remove_session_spec :
  ∀ (u s : list N) m,
    (∀ u' s', get_history u' s' (remove_session u s m)
              = if decide ((u', s') = (u, s)) then [] else get_history u' s' m)
    ∧ (∀ u', sessions_of u' (remove_session u s m)
             = if decide (u' = u) then sessions_of u m ∖ {[s]} else sessions_of u' m)
    ∧ ¬ has_session u s (remove_session u s m)
    ∧ (∀ u', is_Some (memory_store (remove_session u s m) !! u')
             ↔ is_Some (memory_store m !! u'))
    ∧ (memory_store m !! u = None → remove_session u s m = m)
    ∧ (is_Some (memory_store m !! u) → persist m = true →
       dumped (remove_session u s m) = memory_store (remove_session u s m) :: dumped m).
Proof.
  intros u s m. split; [apply remove_session_history|].
  split; [apply remove_session_sessions|]. split.
  { rewrite has_session_sessions_of, remove_session_sessions, decide_True by done.
    rewrite elem_of_difference, elem_of_singleton. by intros [_ []]. }
  split.
  { intros u'. destruct (memory_store m !! u) as [ss|] eqn:Hu.
    - destruct (remove_session_known u s m ss Hu) as (-> & _).
      destruct (decide (u' = u)) as [->|Hne].
      + rewrite lookup_insert_eq, Hu. split; by eexists.
      + by rewrite lookup_insert_ne.
    - by rewrite (remove_session_unknown _ _ _ Hu). }
  split; [apply remove_session_unknown|].
  intros [ss Hu]. by apply (remove_session_known u s m ss).
Qed.

(** X9.  [remove_user] forgets the user with all their sessions and leaves
    every other user as they were; a persisting object writes the store it
    leaves on every call, also when the user was unknown, an object that
    does not persist writes nothing. *)
Theorem remove_user_spec :
  ∀ (u : list N) m,
    memory_store (remove_user u m) !! u = None
    ∧ (∀ u' s', get_history u' s' (remove_user u m)
                = if decide (u' = u) then [] else get_history u' s' m)
    ∧ (∀ u', sessions_of u' (remove_user u m)
             = if decide (u' = u) then ∅ else sessions_of u' m)
    ∧ (∀ u', u' ≠ u → memory_store (remove_user u m) !! u' = memory_store m !! u')
    ∧ (persist m = true →
       dumped (remove_user u m) = memory_store (remove_user u m) :: dumped m)
    ∧ (persist m = false → dumped (remove_user u m) = dumped m).
Proof.
  intros u m. unfold remove_user at 1 4 5 6 7.
  rewrite !save_if_persist_store. cbn [with_store memory_store].
  split; [apply lookup_delete_eq|]. split; [apply remove_user_history|].
  split; [apply remove_user_sessions|].
  split; [intros u' Hne; by apply lookup_delete_ne|].
  unfold save_if_persist. cbn [with_store persist].
  split; intros ->; done.
Qed.

End cleanup.

(** ** What reaches the file *)

Section persistence.

Import MemoryManager.

Implicit Types m : MemoryManager.t.
Implicit Types u s : list N.

Lemma saved_since_refl m : saved_since m m.
Proof. unfold saved_since. repeat split; [done..|by left]. Qed.

Lemma saved_since_trans m1 m2 m3 :
  saved_since m1 m2 → saved_since m2 m3 → saved_since m1 m3.
Proof.
  intros (Hp1 & Hs1 & Hq1 & Hw1) (Hp2 & Hs2 & Hq2 & Hw2). unfold saved_since.
  split; [congruence|]. split; [by etrans|]. split.
  - intros Hp. rewrite Hq2, Hq1; [done..|congruence].
  - intros Hp. destruct (Hw2 ltac:(congruence)) as [->|H]; [by apply Hw1|by right].
Qed.

Lemma saved_since_write st m : saved_since m (save_if_persist (with_store st m)).
Proof.
  unfold saved_since, save_if_persist. simpl.
  destruct (persist m) eqn:Hp; simpl.
  - split; [done|]. split; [by apply suffix_cons_r|]. split; [done|]. by right.
  - rewrite Hp. split; [done|]. split; [done|]. split; done.
Qed.

Lemma saved_since_add_chat_user u m : saved_since m (add_chat_user u m).
Proof.
  unfold add_chat_user. destruct (memory_store m !! u).
  - apply saved_since_refl.
  - apply saved_since_write.
Qed.

Lemma saved_since_add_chat_session u s m m' :
  add_chat_session u s m = Ok m' → saved_since m m'.
Proof.
  unfold add_chat_session. intros H.
  apply (saved_since_trans _ (add_chat_user u m)); [apply saved_since_add_chat_user|].
  destruct (memory_store (add_chat_user u m) !! u) as [ss|]; [|done].
  cbn [getitem mbind result_bind] in H.
  destruct (ss !! s); injection H as <-.
  - apply saved_since_refl.
  - apply saved_since_write.
Qed.

Lemma saved_since_add_message u s r c m m' :
  add_message u s r c m = Ok m' → saved_since m m'.
Proof.
  unfold add_message. intros H.
  destruct (add_chat_session u s m) as [m1|] eqn:E1; [|done].
  apply (saved_since_trans _ m1); [by eapply saved_since_add_chat_session|].
  cbn [mbind result_bind] in H.
  destruct (memory_store m1 !! u) as [ss|]; [|done].
  cbn [getitem mbind result_bind] in H.
  destruct (ss !! s); [|done].
  cbn [getitem mbind result_bind] in H. injection H as <-.
  apply saved_since_write.
Qed.

Lemma saved_since_call m m' : method_call m m' → saved_since m m'.
Proof.
  destruct 1.
  - apply saved_since_add_chat_user.
  - by eapply saved_since_add_chat_session.
  - by eapply saved_since_add_message.
  - unfold clear_session. destruct (memory_store m !! u) as [ss|].
    + destruct (ss !! s); [apply saved_since_write|apply saved_since_refl].
    + apply saved_since_refl.
  - unfold remove_session. destruct (memory_store m !! u) as [ss|].
    + apply saved_since_write.
    + apply saved_since_refl.
  - apply saved_since_write.
Qed.

Lemma saved_since_calls m m' : rtc method_call m m' → saved_since m m'.
Proof.
  induction 1 as [m|m1 m2 m3 H _ IH]; [apply saved_since_refl|].
  eapply saved_since_trans; [by apply saved_since_call|done].
Qed.

(** X10.  Over any sequence of calls of the methods that manage users,
    sessions and messages: the [persist] flag never changes and no snapshot
    written is lost; an object that does not persist never writes; for one
    that persists, unless the calls left the object exactly as it was, the
    snapshot written last is the store it holds, so that no change of the
    store goes unwritten. *)
Theorem store_changes_are_written :
  ∀ m m',
    rtc method_call m m' →
    persist m' = persist m
    ∧ dumped m `suffix_of` dumped m'
    ∧ (persist m = false → dumped m' = dumped m)
    ∧ (persist m = true → m' = m ∨ head (dumped m') = Some (memory_store m')).
Proof. exact saved_since_calls. Qed.

Lemma store_changes_are_written_witness :
  let m' := remove_session (py "user1") (py "Session 1")
              (add_chat_user (py "user1") empty_memory) in
  persist m' = persist empty_memory
  ∧ dumped empty_memory `suffix_of` dumped m'
  ∧ (persist empty_memory = false → dumped m' = dumped empty_memory)
  ∧ (persist empty_memory = true →
     m' = empty_memory ∨ head (dumped m') = Some (memory_store m')).
Proof.
  apply (store_changes_are_written empty_memory).
  eapply rtc_l; [apply call_add_chat_user|].
  eapply rtc_l; [apply call_remove_session|]. apply rtc_refl.
Defined.

(** X11.  A persisting object can be rebuilt from its file: after any
    sequence of such calls on an object constructed with [persist=True],
    whatever the file held at construction (nothing, a store, or something
    unreadable), constructing a new object from the file as the writes left
    it gives the same store.  (Every write is taken to reach the file and
    [pickle.load] to return what [pickle.dump] was given.) *)

Theorem restart_recovers_store :
  ∀ file m',
    rtc method_call (Persistence.init true file) m' →
    memory_store (Persistence.init true (file_after file m')) = memory_store m'.
Proof.
  intros file m' (Hp & _ & _ & Hw)%saved_since_calls.
  destruct Hw as [->|H]; [by destruct file| |].
  - unfold file_after. by destruct file.
  - unfold file_after. destruct (dumped m') as [|st d]; [done|].
    simpl in H. by injection H as ->.
Qed.

Lemma restart_recovers_store_witness :
  let m' := add_message (py "user1") (py "Session 1") human_role (py "hi")
              (Persistence.init true None) in
  (λ m', memory_store (Persistence.init true (file_after None m'))) <$> m'
  = memory_store <$> m'.
Proof.
  cbv zeta.
  destruct (add_message (py "user1") (py "Session 1") human_role (py "hi")
              (Persistence.init true None)) as [m'|e] eqn:E; [|done].
  cbn [fmap result_fmap]. f_equal.
  apply (restart_recovers_store None m').
  eapply rtc_l; [by eapply call_add_message|]. apply rtc_refl.
Defined.

(** X12.  Creating a session and removing it again: what is left is the
    old store with the user known and without that session.  So on a known
    user without the session the two calls restore the store; on an unknown
    user they leave the user behind, without sessions; and a session that
    existed before is lost with its turns. *)
Theorem add_then_remove_session :
  ∀ (u s : list N) m,
    ∃ m1, add_chat_session u s m = Ok m1
          ∧ memory_store (remove_session u s m1)
            = <[u := delete s (default ∅ (memory_store m !! u))]> (memory_store m)
          ∧ (is_Some (memory_store m !! u) → ¬ has_session u s m →
             memory_store (remove_session u s m1) = memory_store m)
          ∧ (memory_store m !! u = None →
             memory_store (remove_session u s m1) = <[u := ∅]> (memory_store m)).
Proof.
  intros u s m.
  destruct (add_chat_session_store u s m) as (m1 & H1 & Hst & Hp).
  exists m1. split; [done|].
  assert (memory_store m1 !! u
          = Some (<[s := get_history u s m]> (default ∅ (memory_store m !! u)))) as Hu.
  { rewrite Hst. apply lookup_insert_eq. }
  destruct (remove_session_known u s m1 _ Hu) as (-> & _).
  rewrite Hst, insert_insert_eq.
  assert (delete s (<[s := get_history u s m]> (default ∅ (memory_store m !! u)))
          = delete s (default ∅ (memory_store m !! u))) as -> by apply delete_insert_eq.
  split; [done|]. split.
  - intros [ss Hss] Hno. rewrite Hss. cbn [default].
    rewrite delete_id; [by apply insert_id|].
    destruct (ss !! s) as [h|] eqn:Hs; [|done]. destruct Hno. by exists ss, h.
  - intros ->. cbn [default]. by rewrite delete_empty.
Qed.

End persistence.

(** ** The chats of the app *)

Section app.

Import MemoryManager.

Import App.

Implicit Types m : MemoryManager.t.
Implicit Types u s : list N.

Lemma add_chat_session_sessions u s m m' u' :
  add_chat_session u s m = Ok m' →
  sessions_of u' m'
  = if decide (u' = u) then {[s]} ∪ sessions_of u m else sessions_of u' m.
Proof.
  destruct (add_chat_session_store u s m) as (m1 & H1 & Hst & _).
  rewrite H1. intros [= <-]. unfold sessions_of. rewrite Hst.
  case_decide as E.
  - subst u'. rewrite lookup_insert_eq. simpl. by rewrite dom_insert_L.
  - by rewrite lookup_insert_ne.
Qed.

Lemma str_inj : Inj (=) (=) str.
Proof.
  intros a b H. unfold str in H.
  apply (inj pretty).
  rewrite <- (string_of_list_ascii_of_string (pretty a)),
    <- (string_of_list_ascii_of_string (pretty b)).
  f_equal. revert H. generalize (list_ascii_of_string (pretty a)).
  generalize (list_ascii_of_string (pretty b)).
  intros l2 l1. revert l2. induction l1 as [|x l1 IH]; intros [|y l2]; simpl; try done.
  intros [= Hxy Hl]. f_equal; [|by apply IH].
  by rewrite <- (ascii_N_embedding x), <- (ascii_N_embedding y), Hxy.
Qed.

Lemma session_name_inj : Inj (=) (=) session_name.
Proof. intros a b H. unfold session_name in H. by apply app_inv_head, str_inj in H. Qed.

Lemma numbered_length n m : numbered n m → length (list_sessions USER_ID m) = n.
Proof.
  intros H. destruct (list_sessions_spec USER_ID m) as (_ & _ & ->).
  rewrite H, size_list_to_set.
  - by rewrite length_fmap, length_seq.
  - apply NoDup_fmap; [apply session_name_inj|apply NoDup_seq].
Qed.

Lemma numbered_fresh n m : numbered n m → ¬ has_session USER_ID (session_name (n + 1)) m.
Proof.
  intros H. rewrite has_session_sessions_of, H, elem_of_list_to_set, list_elem_of_fmap.
  intros (k & Hk%session_name_inj & Hin%elem_of_seq). lia.
Qed.

Lemma numbered_next n m m' :
  numbered n m →
  add_chat_session USER_ID (session_name (n + 1)) m = Ok m' →
  numbered (S n) m'.
Proof.
  intros H Hadd. unfold numbered.
  rewrite (add_chat_session_sessions _ _ _ _ USER_ID Hadd), decide_True by done.
  rewrite H, seq_S, fmap_app, list_to_set_app_L. simpl.
  rewrite union_empty_r_L, Nat.add_comm. by rewrite (comm_L (∪)).
Qed.

(** X13.  When the chats of the user are Session 1 to Session n (none,
    for n = 0), [start_new_session] always returns; it creates the chat
    Session n+1, which did not exist, makes it the current one, shows no
    message for it, changes the turns of no session, and leaves the chats
    Session 1 to Session n+1. *)
Theorem start_new_session_opens_fresh_chat :
  ∀ n MEMORY st,
    numbered n MEMORY →
    ∃ MEMORY',
      start_new_session MEMORY st
      = Ok (MEMORY', {| current_session := Some (session_name (n + 1)) |})
      ∧ ¬ has_session USER_ID (session_name (n + 1)) MEMORY
      ∧ has_session USER_ID (session_name (n + 1)) MEMORY'
      ∧ get_current_messages MEMORY' {| current_session := Some (session_name (n + 1)) |}
        = []
      ∧ (∀ u s, get_history u s MEMORY' = get_history u s MEMORY)
      ∧ numbered (S n) MEMORY'.
Proof.
  intros n MEMORY st H.
  destruct (add_chat_session_store USER_ID (session_name (n + 1)) MEMORY)
    as (m' & Hadd & _).
  exists m'. unfold start_new_session.
  rewrite (numbered_length _ _ H). fold (session_name (n + 1)). rewrite Hadd.
  split; [done|]. split; [by apply numbered_fresh|].
  split; [by eapply add_chat_session_has|].
  assert (∀ u s, get_history u s m' = get_history u s MEMORY) as Hh.
  { intros u s. by eapply add_chat_session_history. }
  split; [|split; [done|by eapply numbered_next]].
  unfold get_current_messages. cbn [current_session].
  assert (∃ c name, session_name (n + 1) = c :: name) as (c & name & E)
    by (by eexists _, _).
  rewrite E, <- E, Hh. apply not_has_session_history. by apply numbered_fresh.
Qed.

Lemma start_new_session_opens_fresh_chat_witness :
  ∃ MEMORY',
    start_new_session two_turns {| current_session := None |}
    = Ok (MEMORY', {| current_session := Some (session_name (1 + 1)) |})
    ∧ ¬ has_session USER_ID (session_name (1 + 1)) two_turns
    ∧ has_session USER_ID (session_name (1 + 1)) MEMORY'
    ∧ get_current_messages MEMORY' {| current_session := Some (session_name (1 + 1)) |}
      = []
    ∧ (∀ u s, get_history u s MEMORY' = get_history u s two_turns)
    ∧ numbered 2 MEMORY'.
Proof.
  apply (start_new_session_opens_fresh_chat 1 two_turns {| current_session := None |}).
  unfold numbered, sessions_of. vm_compute. reflexivity.
Defined.

End app.

(** ** What a run leaves and what can leave a run *)

Section graph_frame.

Import MemoryManager.

Implicit Types state : GraphState.
Implicit Types env : Collaborators.
Implicit Types m : MemoryManager.t.

Lemma add_message_sessions (u s r c : list N) m m' (u' : list N) :
  add_message u s r c m = Ok m' →
  sessions_of u' m'
  = if decide (u' = u) then {[s]} ∪ sessions_of u m else sessions_of u' m.
Proof.
  unfold add_message.
  destruct (add_chat_session u s m) as [m1|] eqn:E1; [|done].
  pose proof (add_chat_session_sessions _ _ _ _ u' E1) as H1.
  pose proof (add_chat_session_has _ _ _ _ E1) as (ss & h & Hu & Hs).
  cbn [mbind result_bind]. rewrite Hu. cbn [getitem mbind result_bind]. rewrite Hs.
  cbn [getitem mbind result_bind]. intros [= <-].
  rewrite <- H1. unfold sessions_of. rewrite save_if_persist_store. simpl.
  destruct (decide (u' = u)) as [->|Hne].
  - rewrite lookup_insert_eq, Hu. simpl. rewrite dom_insert_L.
    apply subseteq_union_1_L, singleton_subseteq_l, elem_of_dom. by eexists.
  - by rewrite lookup_insert_ne.
Qed.

(** The shape of a run that completes. *)
Lemma invoke_Ok_inv env state trace state' :
  invoke env state = (trace, Ok state') →
  ∃ s1 s2 r s3,
    load_memory state = Ok s1 ∧ orchestrator env s1 = Ok s2
    ∧ orchestrator_route s2 = Ok r
    ∧ (if decide (r = end_) then s3 = s2 else run_node env (path_map r) s2 = Ok s3)
    ∧ update_memory s3 = Ok state'
    ∧ trace = [load_memory_node; orchestrator_node]
              ++ (if decide (r = end_) then [] else [path_map r])
              ++ [update_memory_node].
Proof.
  rewrite invoke_pipeline. unfold pipeline, stage, finished. cbn [run_node].
  destruct (load_memory state) as [s1|] eqn:E1; [|done].
  destruct (orchestrator env s1) as [s2|] eqn:E2; [|done].
  destruct (orchestrator_route s2) as [r|] eqn:E3; [|done].
  destruct r; cbn [path_map run_node].
  - destruct (video_agent env s2) as [s3|] eqn:E4; [|done].
    destruct (update_memory s3) as [s4|] eqn:E5; [|done].
    intros [= <- <-]. by exists s1, s2, video_analyst, s3.
  - destruct (transcript_agent env s2) as [s3|] eqn:E4; [|done].
    destruct (update_memory s3) as [s4|] eqn:E5; [|done].
    intros [= <- <-]. by exists s1, s2, transcript_analyst, s3.
  - destruct (report_agent env s2) as [s3|] eqn:E4; [|done].
    destruct (update_memory s3) as [s4|] eqn:E5; [|done].
    intros [= <- <-]. by exists s1, s2, report_analyst, s3.
  - destruct (update_memory s2) as [s4|] eqn:E5; [|done].
    intros [= <- <-]. by exists s1, s2, end_, s2.
Qed.

(** What a handler leaves of the state. *)
Lemma handler_frame env r state s3 :
  r ≠ end_ →
  run_node env (path_map r) state = Ok s3 →
  memory s3 = memory state ∧ user_id s3 = user_id state
  ∧ session_id s3 = session_id state ∧ user_query s3 = user_query state
  ∧ video_path s3 = video_path state
  ∧ (if decide (r = report_analyst)
     then report_path s3 = Some no_report
          ∨ ∃ args file, generate_report env args = Ok file ∧ report_path s3 = Some file
     else report_path s3 = report_path state).
Proof.
  intros Hr. destruct r; [| | |done]; cbn [path_map run_node].
  - unfold video_agent.
    destruct (video_path state) eqn:?; [|done].
    destruct (user_query state) eqn:?; [|done].
    cbn [getitem mbind result_bind]. intros [= <-]. simpl. by repeat split.
  - unfold transcript_agent.
    destruct (video_path state) eqn:?; [|done].
    cbn [getitem mbind result_bind]. intros [= <-]. simpl. by repeat split.
  - unfold report_agent.
    destruct (memory state) eqn:?; [|done]. destruct (user_id state) eqn:?; [|done].
    destruct (session_id state) eqn:?; [|done].
    destruct (user_query state) eqn:?; [|done].
    cbn [getitem mbind result_bind].
    destruct (hug_llm env _) as [content|]; [|done]. cbn [mbind result_bind].
    rewrite decide_True by done.
    match goal with
    | |- _ → ?G =>
        assert (∀ ra,
                  Ok (set_final_response ra (set_report_path no_report state)) = Ok s3 → G)
          as Hfail
    end.
    { intros ra [= <-]. simpl. repeat split; [done..|by left]. }
    destruct (json_loads (clean_think_blocks content)) as [fc|];
      cbn [mbind result_bind try_except]; [|exact (Hfail apology)].
    destruct (subscript fc (py "args")) as [args|];
      cbn [mbind result_bind try_except]; [|exact (Hfail apology)].
    destruct (generate_report env args) as [file|] eqn:Hg;
      cbn [mbind result_bind try_except]; [|exact (Hfail apology)].
    destruct (random_choice env success_responses) as [response|];
      cbn [mbind result_bind try_except]; [|exact (Hfail apology)].
    intros [= <-]. simpl. repeat split; [done..|]. right. by exists args, file.
Qed.

Lemma update_memory_inv state state' :
  update_memory state = Ok state' →
  ∃ mem uid sid query response m1 m2,
    memory state = Some mem ∧ user_id state = Some uid ∧ session_id state = Some sid
    ∧ add_message uid sid human_role query mem = Ok m1
    ∧ add_message uid sid ai_role response m1 = Ok m2
    ∧ state' = set_memory m2 state.
Proof.
  unfold update_memory.
  destruct (memory state) as [mem|]; [|done].
  destruct (user_id state) as [uid|]; [|done].
  destruct (session_id state) as [sid|]; [|done].
  destruct (user_query state) as [query|]; [|done].
  destruct (final_response state) as [response|]; [|done].
  cbn [getitem mbind result_bind].
  destruct (add_message uid sid human_role query mem) as [m1|] eqn:E1; [|done].
  cbn [mbind result_bind].
  destruct (add_message uid sid ai_role response m1) as [m2|] eqn:E2; [|done].
  cbn [mbind result_bind]. intros [= <-].
  by exists mem, uid, sid, query, response, m1, m2.
Qed.

Lemma trace_report (r : route) :
  report_agent_node
  ∈ [load_memory_node; orchestrator_node]
    ++ (if decide (r = end_) then [] else [path_map r]) ++ [update_memory_node]
  ↔ r = report_analyst.
Proof.
  destruct r; simpl; (split; [intros H|intros [=]]);
    repeat (apply elem_of_cons in H as [[=]|H]); try (by apply elem_of_nil in H);
    try done.
  by do 3 constructor.
Qed.

(** The shape of the state of a run that completes. *)
Lemma invoke_Ok_shape env state trace state' :
  invoke env state = (trace, Ok state') →
  ∃ r s3 mem uid sid mem1 m1 m2 query response,
    memory state = Some mem ∧ user_id state = Some uid ∧ session_id state = Some sid
    ∧ add_chat_session uid sid mem = Ok mem1
    ∧ memory s3 = Some mem1 ∧ user_id s3 = user_id state
    ∧ session_id s3 = session_id state ∧ user_query s3 = user_query state
    ∧ video_path s3 = video_path state
    ∧ (if decide (r = report_analyst)
       then report_path s3 = Some no_report
            ∨ ∃ args file,
                generate_report env args = Ok file ∧ report_path s3 = Some file
       else report_path s3 = report_path state)
    ∧ add_message uid sid human_role query mem1 = Ok m1
    ∧ add_message uid sid ai_role response m1 = Ok m2
    ∧ state' = set_memory m2 s3
    ∧ trace = [load_memory_node; orchestrator_node]
              ++ (if decide (r = end_) then [] else [path_map r])
              ++ [update_memory_node].
Proof.
  intros (s1 & s2 & r & s3 & E1 & E2 & E3 & E4 & E5 & ->)%invoke_Ok_inv.
  apply load_memory_inv in E1 as (mem & uid & sid & mem1 & Hm & Hu & Hs & Hadd & ->).
  apply orchestrator_inv in E2 as (query & content & Hq & _ & ->).
  assert (memory s3 = Some mem1 ∧ user_id s3 = user_id state
          ∧ session_id s3 = session_id state ∧ user_query s3 = user_query state
          ∧ video_path s3 = video_path state
          ∧ (if decide (r = report_analyst)
             then report_path s3 = Some no_report
                  ∨ ∃ args file,
                      generate_report env args = Ok file ∧ report_path s3 = Some file
             else report_path s3 = report_path state))
    as (Hm3 & Hu3 & Hs3 & Hq3 & Hp3 & Hr3).
  { destruct (decide (r = end_)) as [->|Hr].
    - subst s3. by rewrite decide_False.
    - by apply (handler_frame _ _ _ _ Hr) in E4 as (-> & -> & -> & -> & -> & ?). }
  apply update_memory_inv in E5
    as (mem3 & uid' & sid' & q' & response & m1 & m2 & Hm' & Hu' & Hs' & A1 & A2 & ->).
  rewrite Hm3 in Hm'. rewrite Hu3, Hu in Hu'. rewrite Hs3, Hs in Hs'.
  injection Hm' as <-. injection Hu' as <-. injection Hs' as <-.
  by exists r, s3, mem, uid, sid, mem1, m1, m2, q', response.
Qed.

(** The sessions a completed run leaves. *)
Lemma invoke_sessions env state trace state' :
  invoke env state = (trace, Ok state') →
  ∃ mem mem' uid sid,
    memory state = Some mem ∧ memory state' = Some mem'
    ∧ user_id state = Some uid ∧ session_id state = Some sid
    ∧ persist mem' = persist mem
    ∧ ∀ u, sessions_of u mem'
           = if decide (u = uid) then {[sid]} ∪ sessions_of uid mem
             else sessions_of u mem.
Proof.
  intros (r & s3 & mem & uid & sid & mem1 & m1 & m2 & query & response & Hm & Hu & Hs
          & Hadd & _ & _ & _ & _ & _ & _ & A1 & A2 & -> & _)%invoke_Ok_shape.
  exists mem, m2, uid, sid. split; [done|]. split; [done|]. split; [done|].
  split; [done|]. split.
  - destruct (saved_since_add_chat_session _ _ _ _ Hadd) as (P0 & _).
    destruct (saved_since_add_message _ _ _ _ _ _ A1) as (P1 & _).
    destruct (saved_since_add_message _ _ _ _ _ _ A2) as (P2 & _). congruence.
  - intros u.
    rewrite (add_message_sessions _ _ _ _ _ _ u A2).
    destruct (decide (u = uid)) as [->|Hne].
    + rewrite (add_message_sessions _ _ _ _ _ _ uid A1), decide_True by done.
      rewrite (add_chat_session_sessions _ _ _ _ uid Hadd), decide_True by done.
      by rewrite !(assoc_L (∪)), !union_idemp_L.
    + rewrite (add_message_sessions _ _ _ _ _ _ u A1), decide_False by done.
      by rewrite (add_chat_session_sessions _ _ _ _ u Hadd), decide_False by done.
Qed.

(** X14.  A run that completes leaves the request as it was: user,
    session, query and video path are unchanged.  The report path is changed
    only by a run through the report handler, and then it is the sentinel NA
    or a path the renderer returned: a path other than the one given on
    entry always names a rendered report.  In the memory the run creates no
    session but the one of the request and removes none, and it leaves the
    [persist] flag alone. *)
Theorem completed_run_frame :
  ∀ env state trace state',
    invoke env state = (trace, Ok state') →
    user_id state' = user_id state ∧ session_id state' = session_id state
    ∧ user_query state' = user_query state ∧ video_path state' = video_path state
    ∧ (report_agent_node ∉ trace → report_path state' = report_path state)
    ∧ (report_agent_node ∈ trace →
       report_path state' = Some no_report
       ∨ ∃ args file,
           generate_report env args = Ok file ∧ report_path state' = Some file)
    ∧ ∃ mem mem' uid sid,
        memory state = Some mem ∧ memory state' = Some mem'
        ∧ user_id state = Some uid ∧ session_id state = Some sid
        ∧ persist mem' = persist mem
        ∧ ∀ u, sessions_of u mem'
               = if decide (u = uid) then {[sid]} ∪ sessions_of uid mem
                 else sessions_of u mem.
Proof.
  intros env state trace state' H.
  pose proof (invoke_sessions _ _ _ _ H) as Hsessions.
  apply invoke_Ok_shape in H
    as (r & s3 & mem & uid & sid & mem1 & m1 & m2 & query & response & _ & _ & _
        & _ & _ & Hu3 & Hs3 & Hq3 & Hp3 & Hr3 & _ & _ & -> & ->).
  cbn [user_id session_id user_query video_path report_path set_memory].
  split; [done|]. split; [done|]. split; [done|]. split; [done|].
  rewrite trace_report.
  split; [intros Hr; by rewrite decide_False in Hr3|].
  split; [intros Hr; by rewrite decide_True in Hr3|]. done.
Qed.

Lemma completed_run_frame_witness :
  let env := fixed_env (Ok (classifier_reply "report_generation" "report_analyst"))
               (Ok report_reply) failure failure (Ok (py "report/cat_report.pdf")) 3 in
  let state := request "Make a PDF report of the results" in
  ∃ trace state',
    invoke env state = (trace, Ok state')
    ∧ user_id state' = user_id state ∧ session_id state' = session_id state
    ∧ user_query state' = user_query state ∧ video_path state' = video_path state
    ∧ (report_agent_node ∉ trace → report_path state' = report_path state)
    ∧ (report_agent_node ∈ trace →
       report_path state' = Some no_report
       ∨ ∃ args file,
           generate_report env args = Ok file ∧ report_path state' = Some file)
    ∧ ∃ mem mem' uid sid,
        memory state = Some mem ∧ memory state' = Some mem'
        ∧ user_id state = Some uid ∧ session_id state = Some sid
        ∧ persist mem' = persist mem
        ∧ ∀ u, sessions_of u mem'
               = if decide (u = uid) then {[sid]} ∪ sessions_of uid mem
                 else sessions_of u mem.
Proof.
  intros env state.
  assert (∃ trace state', invoke env state = (trace, Ok state')) as (trace & state' & E)
    by (eexists _, _; vm_compute; reflexivity).
  exists trace, state'. split; [done|].
  exact (completed_run_frame env state trace state' E).
Defined.








End graph_frame.

(** ** From one request to the next *)

Section continuity.

Import MemoryManager.

Implicit Types state : GraphState.
Implicit Types env : Collaborators.

Lemma join_last_two (sep : list N) (l : list (list N)) (x y : list N) :
  ∃ before, join sep (l ++ [x; y]) = before ++ x ++ sep ++ y.
Proof.
  induction l as [|p l [before IH]]; [by exists []|].
  exists (p ++ sep ++ before).
  assert (∀ rest, rest ≠ [] → join sep (p :: rest) = p ++ sep ++ join sep rest) as Hj
    by (by intros [|??] ?).
  cbn [app]. rewrite Hj, IH; [by rewrite <- !app_assoc|by destruct l].
Qed.

Lemma get_context_last_exchange (u s : list N) (k : Z) m h query response :
  (2 ≤ k)%Z →
  get_history u s m = h ++ [human_turn query; ai_turn response] →
  ∃ before,
    get_context u s (Some k) m
    = before ++ py "Human: " ++ query ++ [10] ++ py "AI: " ++ response.
Proof.
  intros Hk Hh. rewrite get_context_window by lia. rewrite Hh.
  unfold last_n. rewrite length_app. cbn [length].
  rewrite drop_app_le by lia. rewrite fmap_app.
  destruct (join_last_two [10] (format_turn <$> drop (length h + 2 - Z.to_nat k `min` (length h + 2)) h)
              (format_turn (human_turn query)) (format_turn (ai_turn response)))
    as [before E].
  exists before. exact E.
Qed.

Lemma invoke_Ok_last env state trace state' :
  invoke env state = (trace, Ok state') → last trace = Some update_memory_node.
Proof.
  intros (s1 & s2 & r & s3 & _ & _ & _ & _ & _ & ->)%invoke_Ok_inv.
  by destruct r.
Qed.

(** X21.  The conversation carries over.  After a run that completes, the
    context [get_context] gives for the session with the window 8 ends with
    the exchange of that run: the line Human: with the query, then the line
    AI: with the final response; and [load_memory] of a next request for the
    same session on that memory returns, puts exactly this context into
    chat_history and changes nothing else. *)
Theorem next_request_sees_last_exchange :
  ∀ env state trace state',
    invoke env state = (trace, Ok state') →
    ∃ mem' uid sid query response,
      user_id state = Some uid ∧ session_id state = Some sid
      ∧ user_query state = Some query
      ∧ final_response state' = Some response ∧ memory state' = Some mem'
      ∧ (∃ before,
           get_context uid sid (Some 8%Z) mem'
           = before ++ py "Human: " ++ query ++ [10] ++ py "AI: " ++ response)
      ∧ ∀ state2,
          memory state2 = Some mem' → user_id state2 = Some uid →
          session_id state2 = Some sid →
          load_memory state2
          = Ok (set_chat_history (get_context uid sid (Some 8%Z) mem') state2).
Proof.
  intros env state trace state' H.
  pose proof (invoke_Ok_last _ _ _ _ H) as Hlast.
  destruct (finalize_general _ _ _ _ H Hlast)
    as (st & mem & mem' & uid & sid & query & response & [= <-] & Hm & Hu & Hs & Hq
        & Hf & Hm' & Hh & _).
  exists mem', uid, sid, query, response.
  split; [done|]. split; [done|]. split; [done|]. split; [done|]. split; [done|].
  split; [by eapply get_context_last_exchange|].
  intros state2 Hm2 Hu2 Hs2. unfold load_memory. rewrite Hm2, Hu2, Hs2.
  rewrite add_chat_session_present.
  - cbn [mbind result_bind]. f_equal. destruct state2. simpl in *. by subst.
  - apply has_session_lookup. rewrite get_history_lookup in Hh.
    destruct (memory_store mem' !! uid ≫= _) as [h|]; [by eexists|].
    by destruct (get_history uid sid mem).
Qed.

Lemma next_request_sees_last_exchange_witness :
  let env := fixed_env (Ok (classifier_reply "transcript_analysis" "transcript_analyst"))
               failure (Ok (py "a cat meows twice")) failure failure 7 in
  let state := request "Transcribe this video" in
  ∃ trace state',
    invoke env state = (trace, Ok state')
    ∧ ∃ mem' uid sid query response,
        user_id state = Some uid ∧ session_id state = Some sid
        ∧ user_query state = Some query
        ∧ final_response state' = Some response ∧ memory state' = Some mem'
        ∧ (∃ before,
             get_context uid sid (Some 8%Z) mem'
             = before ++ py "Human: " ++ query ++ [10] ++ py "AI: " ++ response)
        ∧ ∀ state2,
            memory state2 = Some mem' → user_id state2 = Some uid →
            session_id state2 = Some sid →
            load_memory state2
            = Ok (set_chat_history (get_context uid sid (Some 8%Z) mem') state2).
Proof.
  intros env state.
  assert (∃ trace state', invoke env state = (trace, Ok state')) as (trace & state' & E)
    by (eexists _, _; vm_compute; reflexivity).
  exists trace, state'. split; [done|].
  exact (next_request_sees_last_exchange env state trace state' E).
Defined.

End continuity.

(** ** The text transforms only cut *)

Section excerpts.

Implicit Types s t text : list N.

Lemma rstrip_prefix s : ∃ b, s = rstrip s ++ b.
Proof.
  induction s as [|c s [b IH]]; [by exists []|]. simpl.
  destruct (rstrip s) as [|d r] eqn:E.
  - destruct (is_space c); [by exists (c :: s)|].
    exists s. done.
  - exists b. simpl in *. by f_equal.
Qed.

Lemma strip_infix s : ∃ a b, s = a ++ strip s ++ b.
Proof.
  destruct (lstrip_suffix s) as [a Ha]. destruct (rstrip_prefix (lstrip s)) as [b Hb].
  exists a, b. unfold strip. by rewrite <- Hb.
Qed.

Lemma rstrip_last s c : last (rstrip s) = Some c → is_space c = false.
Proof.
  induction s as [|x s IH]; simpl; [done|].
  destruct (rstrip s) as [|d r] eqn:E.
  - destruct (is_space x) eqn:Hx; simpl; [done|]. by intros [= <-].
  - exact IH.
Qed.

Lemma rstrip_head s c : is_space c = false → head (rstrip (c :: s)) = Some c.
Proof. intros H. simpl. destruct (rstrip s); [by rewrite H|done]. Qed.

(** A stripped text begins and ends with a character that is no
    whitespace. *)
Lemma strip_ends s c :
  (head (strip s) = Some c → is_space c = false)
  ∧ (last (strip s) = Some c → is_space c = false).
Proof.
  unfold strip. split; [|apply rstrip_last].
  destruct (lstrip s) as [|x t] eqn:E; [done|].
  pose proof (lstrip_not_space _ _ _ E) as Hx.
  rewrite (rstrip_head _ _ Hx). by intros [= <-].
Qed.

Lemma sub_from_sublist p bol skip s : sub_from p bol skip s `sublist_of` s.
Proof.
  revert bol skip. induction s as [|c s IH]; intros bol skip; simpl; [done|].
  destruct skip as [|k]; [|by apply sublist_cons].
  destruct (match_here p bol None (c :: s)) as [m|].
  - destruct (S (length s) - length (m_rest m))%nat.
    + by apply sublist_skip.
    + by apply sublist_cons.
  - by apply sublist_skip.
Qed.

Lemma strip_sublist s : strip s `sublist_of` s.
Proof.
  destruct (strip_infix s) as (a & b & H). rewrite H at 2.
  apply sublist_inserts_l, sublist_inserts_r. done.
Qed.

(** X17.  [clean_think_blocks] only deletes: its result is the input with
    some characters left out, in the same order, never longer than the
    input, and it neither begins nor ends with whitespace. *)
Theorem clean_think_blocks_only_cuts :
  ∀ text,
    clean_think_blocks text `sublist_of` text
    ∧ (length (clean_think_blocks text) ≤ length text)%nat
    ∧ (∀ c, head (clean_think_blocks text) = Some c → is_space c = false)
    ∧ (∀ c, last (clean_think_blocks text) = Some c → is_space c = false).
Proof.
  intros text.
  assert (clean_think_blocks text `sublist_of` text) as H.
  { unfold clean_think_blocks, re_sub_empty.
    etrans; [apply strip_sublist|apply sub_from_sublist]. }
  split; [done|]. split; [by apply sublist_length|].
  split; intros c; apply strip_ends.
Qed.

Lemma remove_marker_suffix t : ∃ a, t = a ++ remove_marker t.
Proof.
  destruct t as [|c t]; [by exists []|]. unfold remove_marker.
  destruct ((c =? brain) && startswith response_word (lstrip t)); [|by exists []].
  destruct (lstrip_suffix t) as [a Ha].
  destruct (lstrip_suffix (drop (length response_word) (lstrip t))) as [b Hb].
  exists (c :: a ++ take (length response_word) (lstrip t) ++ b).
  cbn [app]. f_equal. rewrite <- !app_assoc, <- Hb, take_drop. exact Ha.
Qed.

(** X18.  [extract_assistant_response] returns an excerpt: one contiguous
    piece of the input, which neither begins nor ends with whitespace. *)
Theorem extract_assistant_response_is_excerpt :
  ∀ text,
    (∃ a b, text = a ++ extract_assistant_response text ++ b)
    ∧ (∀ c, head (extract_assistant_response text) = Some c → is_space c = false)
    ∧ (∀ c, last (extract_assistant_response text) = Some c → is_space c = false).
Proof.
  intros text. rewrite extract_assistant_response_refines. unfold extract_reply.
  destruct (strip_infix text) as (a0 & b0 & H0).
  destruct (remove_marker_suffix (strip text)) as [a1 H1].
  destruct (partition assistant_delim (remove_marker (strip text)))
    as [[before after]|] eqn:P.
  - split; [|split; intros c; apply strip_ends].
    apply partition_inv in P. destruct (strip_infix after) as (a2 & b2 & H2).
    exists (a0 ++ a1 ++ before ++ assistant_delim ++ a2), (b2 ++ b0).
    rewrite H0 at 1. rewrite H1 at 1. rewrite P at 1. rewrite H2 at 1.
    by rewrite <- !app_assoc.
  - split; [|split; intros c; apply strip_ends].
    destruct (strip_infix (remove_marker (strip text))) as (a2 & b2 & H2).
    exists (a0 ++ a1 ++ a2), (b2 ++ b0).
    rewrite H0 at 1. rewrite H1 at 1. rewrite H2 at 1.
    by rewrite <- !app_assoc.
Qed.

End excerpts.

(** ** The chunks of [transcribe] *)

Section chunks.

Import VoiceToText.

Context {frame : Type}.
Implicit Types self : Engine frame.
Implicit Types x : tensor frame.

Lemma pieces_concat_upto {A} (size k : nat) (l : list A) :
  (length l ≤ k * size)%nat →
  concat ((λ j, take size (drop (j * size) l)) <$> seq 0 k) = l.
Proof.
  revert l. induction k as [|k IH]; intros l Hl.
  - destruct l; [done|simpl in Hl; lia].
  - cbn [seq fmap list_fmap concat]. rewrite <- fmap_S_seq, <- list_fmap_compose.
    rewrite (list_fmap_ext _ (λ j, take size (drop (j * size) (drop size l))) (seq 0 k)).
    + rewrite IH; [apply take_drop|]. rewrite length_drop. lia.
    + intros _ j _. cbn [compose]. by rewrite drop_drop.
Qed.

Lemma pieces_count_bounds (size n : nat) :
  (0 < size)%nat →
  (n ≤ (n + size - 1) / size * size)%nat
  ∧ ∀ j, (j < (n + size - 1) / size)%nat → (j * size < n)%nat.
Proof.
  intros Hs.
  pose proof (Nat.div_mod_eq (n + size - 1) size) as E.
  pose proof (Nat.mod_upper_bound (n + size - 1) size ltac:(lia)) as B.
  split; [nia|]. intros j Hj. nia.
Qed.

Lemma pieces_spec {A} (size : nat) (l : list A) :
  (0 < size)%nat →
  concat (pieces size l) = l
  ∧ Forall (λ c, 0 < length c ≤ size)%nat (pieces size l)
  ∧ length (pieces size l) = ((length l + size - 1) / size)%nat.
Proof.
  intros Hs. destruct (pieces_count_bounds size (length l) Hs) as [Hn Hj].
  unfold pieces. split; [by apply pieces_concat_upto|]. split.
  - apply Forall_fmap, Forall_forall. intros j Hin%elem_of_seq. cbn [compose].
    rewrite length_take, length_drop. specialize (Hj j ltac:(lia)). lia.
  - by rewrite length_fmap, length_seq.
Qed.

Lemma slice_piece {A} (step : Z) (j : nat) (l : list A) :
  (0 < step)%Z → (j * Z.to_nat step < length l)%nat →
  slice (Z.of_nat j * step) (Z.of_nat j * step + step) l
  = take (Z.to_nat step) (drop (j * Z.to_nat step) l).
Proof.
  intros Hs Hj. unfold slice.
  assert (Z.of_nat j * step = Z.of_nat (j * Z.to_nat step))%Z as -> by lia.
  set (i := (j * Z.to_nat step)%nat) in *.
  destruct (Z.of_nat i <? 0)%Z eqn:E1; [lia|].
  destruct (Z.of_nat i + step <? 0)%Z eqn:E2; [lia|].
  rewrite (Z.min_l (Z.of_nat i)) by lia. rewrite Nat2Z.id.
  destruct (decide (Z.of_nat i + step ≤ Z.of_nat (length l))%Z) as [H|H].
  - rewrite Z.min_l by lia. f_equal. lia.
  - rewrite Z.min_r by lia.
    rewrite !take_ge; [done|rewrite length_drop; lia..].
Qed.

Lemma range0_pieces (step : Z) {A} (l : list A) :
  (0 < step)%Z →
  ∃ starts,
    range0 (length l) step = Ok starts
    ∧ (λ i, slice i (i + step) l) <$> starts = pieces (Z.to_nat step) l.
Proof.
  intros Hs. unfold range0.
  destruct (step =? 0)%Z eqn:E0; [lia|]. destruct (step <? 0)%Z eqn:E1; [lia|].
  eexists. split; [done|].
  assert (Z.to_nat ((Z.of_nat (length l) + step - 1) / step)
          = ((length l + Z.to_nat step - 1) / Z.to_nat step)%nat) as ->.
  { rewrite <- (Z2Nat.id step) at 1 2 by lia.
    replace (Z.of_nat (length l) + Z.of_nat (Z.to_nat step) - 1)%Z
      with (Z.of_nat (length l + Z.to_nat step - 1)) by lia.
    by rewrite <- Nat2Z.inj_div, Nat2Z.id. }
  unfold pieces. rewrite <- list_fmap_compose.
  apply list_fmap_ext. intros _ j Hin%list_elem_of_lookup_2%elem_of_seq. cbn [compose].
  apply slice_piece; [done|].
  apply (pieces_count_bounds (Z.to_nat step) (length l)); lia.
Qed.

Lemma transcribe_chunks_mapM self x (sr step : Z) (starts : list Z) (acc : list pystr) :
  Forall (λ i, frames (columns i (i + step) x) ≠ []) starts →
  transcribe_chunks self x sr step starts acc
  = (texts ← mapM (λ i, recognize self (columns i (i + step) x) sr) starts;
     Ok (acc ++ (strip <$> texts))).
Proof.
  intros H. revert acc. induction H as [|i starts Hi _ IH]; intros acc.
  - simpl. by rewrite app_nil_r.
  - cbn [transcribe_chunks mapM].
    destruct (length (frames (columns i (i + step) x)) =? 0)%nat eqn:E.
    { by apply Nat.eqb_eq, length_zero_iff_nil in E. }
    destruct (recognize self (columns i (i + step) x) sr) as [text|e];
      cbn [mbind result_bind]; [|done].
    rewrite IH.
    destruct (mapM _ starts) as [texts|e]; cbn [mbind result_bind mret result_ret]; [|done].
    by rewrite <- app_assoc.
Qed.

End chunks.

Section transcribe.

Import VoiceToText.

Context {frame : Type}.
Implicit Types self : Engine frame.
Implicit Types x : tensor frame.

Lemma mapM_fmap {A B C} (f : B → result C) (g : A → B) (l : list A) :
  mapM f (g <$> l) = mapM (f ∘ g) l.
Proof. induction l as [|a l IH]; [done|]. cbn [fmap list_fmap mapM]. by rewrite IH. Qed.

(** The audio as the loop sees it: resampled unless its rate is 16000. *)
Lemma transcribe_audio_loaded self file_path chunk_length_s x sr x' :
  torchaudio_load self (path_str self file_path) = Ok (x, sr) →
  numel x ≠ 0%nat →
  (if (sr =? 16000)%Z then Ok x else resample self sr x) = Ok x' →
  transcribe_audio self file_path chunk_length_s
  = (starts ← range0 (length (frames x')) (chunk_length_s * 16000);
     all_text ← transcribe_chunks self x' 16000 (chunk_length_s * 16000) starts [];
     Ok (join (py " ") all_text)).
Proof.
  intros Hload Hn Hr. unfold transcribe_audio. rewrite Hload.
  cbn [mbind result_bind]. destruct (numel x =? 0)%nat eqn:E.
  { by apply Nat.eqb_eq in E. }
  destruct (sr =? 16000)%Z eqn:Esr.
  - apply Z.eqb_eq in Esr as ->. injection Hr as <-. done.
  - rewrite Hr. done.
Qed.

Lemma transcribe_audio_pieces self file_path chunk_length_s x sr x' :
  torchaudio_load self (path_str self file_path) = Ok (x, sr) →
  numel x ≠ 0%nat →
  (if (sr =? 16000)%Z then Ok x else resample self sr x) = Ok x' →
  (0 < chunk_length_s)%Z →
  transcribe_audio self file_path chunk_length_s
  = (texts ← mapM (λ c, recognize self {| channels := channels x'; frames := c |} 16000%Z)
               (pieces (Z.to_nat (chunk_length_s * 16000)) (frames x'));
     Ok (join (py " ") (strip <$> texts))).
Proof.
  intros Hload Hn Hr Hk.
  rewrite (transcribe_audio_loaded _ _ _ _ _ _ Hload Hn Hr).
  destruct (range0_pieces (chunk_length_s * 16000) (frames x')) as (starts & -> & Hp);
    [lia|].
  cbn [mbind result_bind].
  destruct (pieces_spec (Z.to_nat (chunk_length_s * 16000)) (frames x')) as (_ & Hne & _);
    [lia|].
  rewrite <- Hp in Hne. apply Forall_fmap in Hne.
  rewrite transcribe_chunks_mapM.
  - rewrite <- Hp, mapM_fmap.
    by destruct (mapM _ starts).
  - eapply Forall_impl; [exact Hne|]. intros i Hi. cbn [compose] in Hi.
    cbn [columns frames]. intros E. rewrite E in Hi. simpl in Hi. lia.
Qed.

Lemma transcribe_audio_file self file_path chunk_length_s :
  suffix_lower self file_path ≠ py ".mp4" →
  transcribe self file_path chunk_length_s
  = transcribe_audio self file_path chunk_length_s.
Proof.
  intros H. unfold transcribe. rewrite bool_decide_eq_false_2 by done.
  unfold finally. done.
Qed.

(** X19.  For an audio file that loads with at least one sample and a
    chunk length of one second or more, [transcribe] cuts the audio
    (resampled unless its rate is 16000) into consecutive chunks of
    chunk_length_s * 16000 frames: the chunks put together are the audio, no
    frame is left out or heard twice, no chunk is empty (the loop never
    skips one), there are as many as the length divided by the chunk size,
    rounded up; the chunks are recognised in order, the first failure is
    the outcome, and the transcript is the trimmed texts joined by one
    blank. *)
Theorem transcribe_covers_the_audio :
  ∀ self file_path chunk_length_s x sr x',
    suffix_lower self file_path ≠ py ".mp4" →
    torchaudio_load self (path_str self file_path) = Ok (x, sr) →
    numel x ≠ 0%nat →
    (if (sr =? 16000)%Z then Ok x else resample self sr x) = Ok x' →
    (0 < chunk_length_s)%Z →
    let size := Z.to_nat (chunk_length_s * 16000) in
    concat (pieces size (frames x')) = frames x'
    ∧ Forall (λ c, 0 < length c ≤ size)%nat (pieces size (frames x'))
    ∧ length (pieces size (frames x')) = ((length (frames x') + size - 1) / size)%nat
    ∧ transcribe self file_path chunk_length_s
      = (texts ← mapM (λ c, recognize self {| channels := channels x'; frames := c |}
                              16000%Z)
                   (pieces size (frames x'));
         Ok (join (py " ") (strip <$> texts))).
Proof.
  intros self file_path chunk_length_s x sr x' Hs Hload Hn Hr Hk size.
  destruct (pieces_spec size (frames x')) as (H1 & H2 & H3); [unfold size; lia|].
  split; [done|]. split; [done|]. split; [done|].
  rewrite transcribe_audio_file by done.
  by eapply transcribe_audio_pieces.
Qed.

(** X20.  The edges of [transcribe].  An audio file without samples makes
    it raise ValueError.  A chunk length of 0 makes it raise ValueError too
    (the step of the range is 0), a negative one makes it return the empty
    text without recognising anything.  For a video, a failure of the audio
    extraction is the outcome; after an extraction the temporary file is
    removed when it exists, whatever the transcription gave, and a failure
    of the removal replaces the outcome, even a transcript. *)
Theorem transcribe_edge_cases :
  (∀ self file_path chunk_length_s x sr,
     suffix_lower self file_path ≠ py ".mp4" →
     torchaudio_load self (path_str self file_path) = Ok (x, sr) →
     numel x = 0%nat →
     transcribe self file_path chunk_length_s = Raise ValueError)
  ∧ (∀ self file_path x sr x',
       suffix_lower self file_path ≠ py ".mp4" →
       torchaudio_load self (path_str self file_path) = Ok (x, sr) →
       numel x ≠ 0%nat →
       (if (sr =? 16000)%Z then Ok x else resample self sr x) = Ok x' →
       transcribe self file_path 0 = Raise ValueError)
  ∧ (∀ self file_path chunk_length_s x sr x',
       suffix_lower self file_path ≠ py ".mp4" →
       torchaudio_load self (path_str self file_path) = Ok (x, sr) →
       numel x ≠ 0%nat →
       (if (sr =? 16000)%Z then Ok x else resample self sr x) = Ok x' →
       (chunk_length_s < 0)%Z →
       transcribe self file_path chunk_length_s = Ok [])
  ∧ (∀ self file_path chunk_length_s e,
       suffix_lower self file_path = py ".mp4" →
       extract_audio_from_video self file_path = Raise e →
       transcribe self file_path chunk_length_s = Raise e)
  ∧ (∀ self file_path chunk_length_s c p,
       suffix_lower self file_path = py ".mp4" →
       extract_audio_from_video self file_path = Ok (c :: p) →
       transcribe self file_path chunk_length_s
       = if path_exists self (c :: p)
         then match os_remove self (c :: p) with
              | Ok _ => transcribe_audio self (c :: p) chunk_length_s
              | Raise e => Raise e
              end
         else transcribe_audio self (c :: p) chunk_length_s).
Proof.
  split; [|split; [|split; [|split]]].
  - intros self file_path k x sr Hs Hload Hn.
    rewrite transcribe_audio_file by done. unfold transcribe_audio.
    rewrite Hload. cbn [mbind result_bind]. by rewrite Hn.
  - intros self file_path x sr x' Hs Hload Hn Hr.
    rewrite transcribe_audio_file by done.
    by rewrite (transcribe_audio_loaded _ _ _ _ _ _ Hload Hn Hr).
  - intros self file_path k x sr x' Hs Hload Hn Hr Hk.
    rewrite transcribe_audio_file by done.
    rewrite (transcribe_audio_loaded _ _ _ _ _ _ Hload Hn Hr).
    unfold range0. destruct (k * 16000 =? 0)%Z eqn:E0; [lia|].
    destruct (k * 16000 <? 0)%Z eqn:E1; [done|lia].
  - intros self file_path k e Hs He. unfold transcribe.
    rewrite bool_decide_eq_true_2 by done. by rewrite He.
  - intros self file_path k c p Hs He. unfold transcribe.
    rewrite bool_decide_eq_true_2 by done. rewrite He. unfold finally.
    destruct (path_exists self (c :: p)); [|done].
    by destruct (os_remove self (c :: p)).
Qed.

End transcribe.

Section transcribe_example.

Import VoiceToText.

Lemma transcribe_covers_the_audio_witness :
  let self := fixed_engine (tone (20 * 1000)) 16000 (py " meow ") in
  let size := Z.to_nat (1 * 16000) in
  concat (pieces size (frames (tone (20 * 1000)))) = frames (tone (20 * 1000))
  ∧ Forall (λ c, 0 < length c ≤ size)%nat (pieces size (frames (tone (20 * 1000))))
  ∧ length (pieces size (frames (tone (20 * 1000))))
    = ((length (frames (tone (20 * 1000))) + size - 1) / size)%nat
  ∧ transcribe self (py "talk.wav") 1
    = (texts ← mapM (λ c, recognize self
                            {| channels := channels (tone (20 * 1000)); frames := c |}
                            16000%Z)
                 (pieces size (frames (tone (20 * 1000))));
       Ok (join (py " ") (strip <$> texts))).
Proof.
  intros self.
  apply (transcribe_covers_the_audio self (py "talk.wav") 1 (tone (20 * 1000)) 16000
           (tone (20 * 1000))).
  - vm_compute. discriminate.
  - reflexivity.
  - unfold numel, tone. cbn [channels frames]. rewrite length_seq. lia.
  - reflexivity.
  - lia.
Defined.

End transcribe_example.
